(** * open-MaStR: incremental mirror and bulk loader

    A shallow embedding of
    - [open_mastr/soap_api/prototype_mastr_reflected.py] (module [Sync]):
      [MaStRReflected.backfill_basic],
      [MaStRReflected.retrieve_additional_data] and [chunks];
    - [open_mastr/xml_download/utils_write_sqlite.py] (module [Bulk]):
      [convert_mastr_xml_to_sqlite], [add_table_to_sqlite_database],
      [add_missing_column_to_table], [delete_wrong_xml_entry] and
      [handle_xml_syntax_error].

    Database tables are lists of rows in table order, Python dictionaries
    are [gmap]s, Python exceptions are the [Raise] results of a small error
    monad. *)

From Stdlib Require Import ZArith Lia Ascii String.
From stdpp Require Import base decidable option list strings gmap.

(** ** Exceptions and the error monad *)

Inductive exn : Type :=
  | KeyError (key : string)
  | TypeError
  | UnboundLocalError (name : string)
  | IntegrityError (key : string)
  | FlushError
  | StatementError
  | DuplicateColumn (column : string).

Inductive result (A : Type) : Type :=
  | Ok (a : A)
  | Raise (e : exn).
Arguments Ok {A} a.
Arguments Raise {A} e.

Definition rbind {A B : Type} (m : result A) (k : A → result B) : result B :=
  match m with
  | Ok a => k a
  | Raise e => Raise e
  end.

Notation "'let*' x := m 'in' k" := (rbind m (λ x, k))
  (at level 10, x name, m at level 200, k at level 200).

(** [d[k]] on a dictionary. *)
Definition getitem {V : Type} (d : gmap string V) (k : string) : result V :=
  match d !! k with
  | Some v => Ok v
  | None => Raise (KeyError k)
  end.

(** Truthiness of a Python value that is [None] or a string. *)
Definition truthy (o : option string) : bool :=
  match o with
  | Some s => negb (bool_decide (s = ""))
  | None => false
  end.

Module Sync.

(** ** Rows of the mirrored tables *)

(** Modelled from the spec: the column declarations of [db.BasicUnit] in
    [db_models] are not part of the sources.  A BasicRecord has the unique
    key [unit_id] ([EinheitMastrNummer]), the raw category ([Einheittyp]),
    the timestamp [last_modified] ([DatumLetzeAktualisierung]) and the
    nullable references [eeg_ref], [chp_ref] and [permit_ref]; these are the
    keys that [backfill_basic] reads of a unit.  [payload] stands for all
    remaining columns. *)
Record BasicUnit : Type := {
  EinheitMastrNummer : string;
  Einheittyp : string;
  DatumLetzeAktualisierung : Z;
  EegMastrNummer : option string;
  KwkMastrNummer : option string;
  GenMastrNummer : option string;
  payload : string
}.

Global Instance BasicUnit_eq_dec : EqDecision BasicUnit.
Proof. solve_decision. Defined.

Definition unit_ids (l : list BasicUnit) : list string :=
  EinheitMastrNummer <$> l.

(** ** [backfill_basic]: removing duplicates returned from the API *)

(** [enumerate(basic_units_chunk)] *)
Definition enumerate {A : Type} (l : list A) : list (nat * A) :=
  imap (λ n x, (n, x)) l.

(** [[unit for n, unit in enumerate(chunk)
      if unit["EinheitMastrNummer"]
         not in [_["EinheitMastrNummer"] for _ in chunk[n + 1:]]]] *)
Definition basic_units_chunk_unique (basic_units_chunk : list BasicUnit)
  : list BasicUnit :=
  snd <$>
    filter (λ p : nat * BasicUnit,
              EinheitMastrNummer p.2 ∉ unit_ids (drop (S p.1) basic_units_chunk))
           (enumerate basic_units_chunk).

(** ** [backfill_basic]: insert new units, update units with newer data *)

(** [session.query(db.BasicUnit.EinheitMastrNummer).filter(
       db.BasicUnit.EinheitMastrNummer.in_(ids))] *)
Definition common_ids (tbl : list BasicUnit) (ids : list string) : list string :=
  EinheitMastrNummer <$> filter (λ r, EinheitMastrNummer r ∈ ids) tbl.

(** [session.query(exists().where(and_(
       BasicUnit.EinheitMastrNummer == unit["EinheitMastrNummer"],
       BasicUnit.DatumLetzeAktualisierung < unit["DatumLetzeAktualisierung"]
    ))).scalar()] *)
Definition exists_older (tbl : list BasicUnit) (unit : BasicUnit) : bool :=
  existsb (λ r, bool_decide (EinheitMastrNummer r = EinheitMastrNummer unit)
                && (DatumLetzeAktualisierung r <? DatumLetzeAktualisierung unit)%Z)
          tbl.

(** [session.merge(db.BasicUnit( **unit))]: the row with the primary key of
    [unit] takes the values of [unit]; without such a row, [unit] is added. *)
Definition session_merge (unit : BasicUnit) (tbl : list BasicUnit)
  : list BasicUnit :=
  if bool_decide (EinheitMastrNummer unit ∈ unit_ids tbl)
  then (λ r, if bool_decide (EinheitMastrNummer r = EinheitMastrNummer unit)
             then unit else r) <$> tbl
  else tbl ++ [unit].

(** The loop [for unit in basic_units_chunk_unique] with its accumulators
    [insert] and [updated]. *)
Fixpoint classify_units (common : list string) (units : list BasicUnit)
    (insert updated : list BasicUnit) (tbl : list BasicUnit)
  : list BasicUnit * list BasicUnit * list BasicUnit :=
  match units with
  | [] => (insert, updated, tbl)
  | unit :: rest =>
      if bool_decide (EinheitMastrNummer unit ∈ common) then
        if exists_older tbl unit
        then classify_units common rest insert (updated ++ [unit])
                            (session_merge unit tbl)
        else classify_units common rest insert updated tbl
      else classify_units common rest (insert ++ [unit]) updated tbl
  end.

(** [session.bulk_save_objects([db.BasicUnit( **u) for u in insert])]: one
    INSERT per object; a primary key that is already stored is an error. *)
Fixpoint bulk_save_objects (objs : list BasicUnit) (tbl : list BasicUnit)
  : result (list BasicUnit) :=
  match objs with
  | [] => Ok tbl
  | o :: rest =>
      if bool_decide (EinheitMastrNummer o ∈ unit_ids tbl)
      then Raise (IntegrityError (EinheitMastrNummer o))
      else bulk_save_objects rest (tbl ++ [o])
  end.

(** Lines 218-247 of [backfill_basic] for one chunk: the new table of basic
    units and [inserted_and_updated]. *)
Definition merge_basic_chunk (basic_units_chunk : list BasicUnit)
    (tbl : list BasicUnit) : result (list BasicUnit * list BasicUnit) :=
  let chunk_unique := basic_units_chunk_unique basic_units_chunk in
  let chunk_unique_ids := unit_ids chunk_unique in
  let common := common_ids tbl chunk_unique_ids in
  let '(insert, updated, tbl1) := classify_units common chunk_unique [] [] tbl in
  let* tbl2 := bulk_save_objects insert tbl1 in
  Ok (tbl2, insert ++ updated).

(** ** The dictionaries of [MaStRReflected.__init__] *)

Definition unit_type_map_items : list (string * string) :=
  [ ("Windeinheit", "wind"); ("Solareinheit", "solar"); ("Biomasse", "biomass");
    ("Wasser", "hydro"); ("Geothermie", "gsgk"); ("Verbrennung", "combustion");
    ("Kernenergie", "nuclear"); ("Stromspeichereinheit", "storage");
    ("Gasspeichereinheit", "gas_storage");
    ("Gasverbrauchseinheit", "gas_consumer");
    ("Stromverbrauchseinheit", "consumer");
    ("Gaserzeugungseinheit", "gas_producer") ].

(** A dictionary display: later bindings of a key replace earlier ones. *)
Definition dict {V : Type} (items : list (string * V)) : gmap string V :=
  foldl (λ d kv, <[kv.1 := kv.2]> d) ∅ items.

Definition unit_type_map : gmap string string := dict unit_type_map_items.

(** [{v: k for k, v in self.unit_type_map.items()}] *)
Definition reversed_unit_type_map : gmap string string :=
  dict ((λ kv : string * string, (kv.2, kv.1)) <$> unit_type_map_items).

Definition orm_map : gmap string (gmap string string) :=
  dict
    [ ("wind", dict [("unit_data", "WindExtended"); ("eeg_data", "WindEeg");
                     ("permit_data", "Permit")]);
      ("solar", dict [("unit_data", "SolarExtended"); ("eeg_data", "SolarEeg");
                      ("permit_data", "Permit")]);
      ("biomass", dict [("unit_data", "BiomassExtended");
                        ("eeg_data", "BiomassEeg"); ("kwk_data", "Kwk");
                        ("permit_data", "Permit")]);
      ("combustion", dict [("unit_data", "CombustionExtended");
                           ("kwk_data", "Kwk"); ("permit_data", "Permit")]);
      ("gsgk", dict [("unit_data", "GsgkExtended"); ("kwk_data", "Kwk");
                     ("permit_data", "Permit")]);
      ("hydro", dict [("unit_data", "HydroExtended"); ("permit_data", "Permit")]);
      ("nuclear", dict [("unit_data", "NuclearExtended");
                        ("permit_data", "Permit")]);
      ("storage", dict [("unit_data", "StorageExtended");
                        ("permit_data", "Permit")]) ].

(** [download_functions] of [retrieve_additional_data] *)
Definition download_functions : gmap string string :=
  dict [ ("unit_data", "_extended_unit_data"); ("eeg_data", "_eeg_unit_data");
         ("kwk_data", "_kwk_unit_data"); ("permit_data", "_permit_unit_data") ].

(** ** The store *)

(** A row of [db.AdditionalDataRequested] (a FetchObligation): the keys of
    the dictionaries that [backfill_basic] inserts. *)
Record AdditionalDataRequested : Type := {
  req_EinheitMastrNummer : string;
  additional_data_id : string;
  technology : string;
  data_type : string;
  request_date : Z
}.

Global Instance AdditionalDataRequested_eq_dec : EqDecision AdditionalDataRequested.
Proof. solve_decision. Defined.

(** The tables of the mirror.  [details] holds the rows of all detail
    tables, keyed by ORM class name and primary key value;
    [missed_additional_data] holds the [additional_data_id] of every row of
    [db.MissedAdditionalData]. *)
Record Store : Type := {
  basic_units : list BasicUnit;
  additional_data_requested : list AdditionalDataRequested;
  missed_additional_data : list string;
  details : gmap (string * string) (gmap string string)
}.

(** ** [backfill_basic]: submitting additional data requests *)

(** The four lists filled by the loop over [inserted_and_updated]. *)
Record Requests : Type := {
  extended_data : list AdditionalDataRequested;
  eeg_data : list AdditionalDataRequested;
  kwk_data : list AdditionalDataRequested;
  permit_data : list AdditionalDataRequested
}.

(** The state of that loop: the lists, the table of requests (old entries
    get deleted on the way) and the clock.  [datetime.datetime.now] is a
    counter that every call reads and advances. *)
Record Submit : Type := {
  requests : Requests;
  requested : list AdditionalDataRequested;
  now : Z
}.

(** The dictionary of one request. *)
Definition request_dict (basic_unit : BasicUnit) (id tech kind : string) (t : Z)
  : AdditionalDataRequested :=
  {| req_EinheitMastrNummer := EinheitMastrNummer basic_unit;
     additional_data_id := id;
     technology := tech;
     data_type := kind;
     request_date := t |}.

(** [if basic_unit[ref]: lst.append({...})], the [request_date] being the
    current time. *)
Definition append_request (basic_unit : BasicUnit) (ref : option string)
    (tech kind : string) (acc : list AdditionalDataRequested * Z)
  : list AdditionalDataRequested * Z :=
  if truthy ref
  then (acc.1 ++ [request_dict basic_unit (default "" ref) tech kind acc.2],
        (acc.2 + 1)%Z)
  else acc.

(** The filter of the DELETE on [db.AdditionalDataRequested]. *)
Definition is_old_entry (id tech : string) (t : Z) (r : AdditionalDataRequested)
  : bool :=
  bool_decide (req_EinheitMastrNummer r = id)
  && bool_decide (technology r = tech)
  && (request_date r <? t)%Z.

(** The body of [for basic_unit in inserted_and_updated].  Every lookup
    [self.unit_type_map[basic_unit["Einheittyp"]]] of the body has the
    result of the first one. *)
Definition submit_unit (basic_unit : BasicUnit) (s : Submit) : result Submit :=
  let* tech := getitem unit_type_map (Einheittyp basic_unit) in
  let id := EinheitMastrNummer basic_unit in
  let rq := requests s in
  let ext := (extended_data rq ++ [request_dict basic_unit id tech "unit_data" (now s)],
              (now s + 1)%Z) in
  let eeg := append_request basic_unit (EegMastrNummer basic_unit) tech
               "eeg_data" (eeg_data rq, ext.2) in
  let kwk := append_request basic_unit (KwkMastrNummer basic_unit) tech
               "kwk_data" (kwk_data rq, eeg.2) in
  let permit := append_request basic_unit (GenMastrNummer basic_unit) tech
                  "permit_data" (permit_data rq, kwk.2) in
  Ok {| requests := {| extended_data := ext.1; eeg_data := eeg.1;
                       kwk_data := kwk.1; permit_data := permit.1 |};
        requested := filter (λ r, ¬ is_old_entry id tech permit.2 r)
                            (requested s);
        now := (permit.2 + 1)%Z |}.

Fixpoint submit_units (units : list BasicUnit) (s : Submit) : result Submit :=
  match units with
  | [] => Ok s
  | basic_unit :: rest => let* s' := submit_unit basic_unit s in submit_units rest s'
  end.

(** Store and clock. *)
Record World : Type := {
  store : Store;
  clock : Z
}.

(** The body of [for basic_units_chunk in basic_units]: lines 214-319. *)
Definition process_chunk (basic_units_chunk : list BasicUnit) (w : World)
  : result World :=
  let* merged := merge_basic_chunk basic_units_chunk (basic_units (store w)) in
  let '(tbl, inserted_and_updated) := merged in
  let* s := submit_units inserted_and_updated
        {| requests := {| extended_data := []; eeg_data := [];
                          kwk_data := []; permit_data := [] |};
           requested := additional_data_requested (store w);
           now := clock w |} in
  Ok {| store := {| basic_units := tbl;
                    additional_data_requested :=
                      requested s ++ extended_data (requests s)
                        ++ eeg_data (requests s) ++ kwk_data (requests s)
                        ++ permit_data (requests s);
                    missed_additional_data := missed_additional_data (store w);
                    details := details (store w) |};
        clock := now s |}.

(** [for basic_units_chunk in basic_units].  An exception ends the run. *)
Fixpoint process_chunks (chunks : list (list BasicUnit)) (w : World)
  : result World :=
  match chunks with
  | [] => Ok w
  | basic_units_chunk :: rest =>
      let* w' := process_chunk basic_units_chunk w in process_chunks rest w'
  end.

(** ** [backfill_basic]: technologies, dates and the calls of the client *)

(** The argument [technology]: [None], a string, a list, or anything else. *)
Inductive TechnologyArg : Type :=
  | TechnologyNone
  | TechnologyStr (s : string)
  | TechnologyList (l : list (option string))
  | TechnologyOther.

(** The argument [date]: [None], the string ["latest"], or a timestamp. *)
Inductive DateArg : Type :=
  | DateNone
  | DateLatest
  | DateTime (t : Z).

(** The [if]/[elif] chain that binds [technology_list]; no branch binds it
    for a value of another type, and its first use fails. *)
Definition technology_list_of (technology : TechnologyArg)
  : result (list (option string)) :=
  match technology with
  | TechnologyStr s => Ok [Some s]
  | TechnologyNone => Ok [None]
  | TechnologyList l => Ok l
  | TechnologyOther => Raise (UnboundLocalError "technology_list")
  end.

(** [if limit is None: limit = 10 ** 8] *)
Definition backfill_limit (limit : option Z) : Z :=
  match limit with
  | None => (10 ^ 8)%Z
  | Some l => l
  end.

(** The greatest of a list of timestamps: the value of [func.max], and of
    the first row in descending order. *)
Definition max_date (l : list Z) : option Z :=
  match l with
  | [] => None
  | t :: rest => Some (foldr Z.max t rest)
  end.

(** Timestamps of the stored units of one unit type. *)
Definition dates_of_type (tbl : list BasicUnit) (typ : string) : list Z :=
  DatumLetzeAktualisierung <$> filter (λ r, Einheittyp r = typ) tbl.

(** [session.query(BasicUnit.Einheittyp, func.max(...)).group_by(
    BasicUnit.Einheittyp)]: one row per unit type that is stored. *)
Definition subquery (tbl : list BasicUnit) : list (string * option Z) :=
  (λ typ, (typ, max_date (dates_of_type tbl typ)))
    <$> remove_dups (Einheittyp <$> tbl).

Fixpoint getitems {V : Type} (d : gmap string V) (ks : list string)
  : result (list V) :=
  match ks with
  | [] => Ok []
  | k :: rest => let* v := getitem d k in let* vs := getitems d rest in Ok (v :: vs)
  end.

(** The loop [for tech in technology_list] of the branch
    [date == "latest"].  [techs] is what is left of the list the loop
    iterates over; the loop ends at the first falsy [tech], where
    [technology_list] and [dates] are written at once. *)
Fixpoint latest_dates (tbl : list BasicUnit) (techs : list (option string))
    (technology_list : list (option string)) (dates : list (option Z))
  : result (list (option string) * list (option Z)) :=
  match techs with
  | [] => Ok (technology_list, dates)
  | tech :: rest =>
      if truthy tech then
        let* typ := getitem reversed_unit_type_map (default "" tech) in
        let newest_date := max_date (dates_of_type tbl typ) in
        latest_dates tbl rest technology_list (dates ++ [newest_date])
      else
        let dates := snd <$> subquery tbl in
        let* technology_list := getitems unit_type_map (fst <$> subquery tbl) in
        Ok (Some <$> technology_list, dates)
  end.

(** The pairs [zip(technology_list, dates)] the retrieval iterates over. *)
Definition fetch_plan (technology : TechnologyArg) (date : DateArg)
    (tbl : list BasicUnit) : result (list (option string * option Z)) :=
  let* technology_list := technology_list_of technology in
  let* resolved :=
     match date with
     | DateLatest => latest_dates tbl technology_list technology_list []
     | DateNone => Ok (technology_list, replicate (length technology_list) None)
     | DateTime t =>
         Ok (technology_list, replicate (length technology_list) (Some t))
     end in
  Ok (zip resolved.1 resolved.2).

(** One call [self.mastr_dl.basic_unit_data(tech, limit, date_from=date)]. *)
Record Call : Type := {
  call_technology : option string;
  call_limit : Z;
  call_date_from : option Z
}.

Section Backfill.

(** The remote client: the chunks of basic units it yields. *)
Variable basic_unit_data : option string → Z → option Z → list (list BasicUnit).

(** [for tech, date in zip(technology_list, dates)], with the log of the
    calls of the client. *)
Fixpoint backfill_plan (plan : list (option string * option Z)) (limit : Z)
    (w : World) (calls : list Call) : result (World * list Call) :=
  match plan with
  | [] => Ok (w, calls)
  | (tech, date) :: rest =>
      let basic_units := basic_unit_data tech limit date in
      let* w' := process_chunks basic_units w in
      backfill_plan rest limit w'
        (calls ++ [ {| call_technology := tech; call_limit := limit;
                       call_date_from := date |} ])
  end.

Definition backfill_basic (technology : TechnologyArg) (date : DateArg)
    (limit : option Z) (w : World) : result (World * list Call) :=
  let limit := backfill_limit limit in
  let* plan := fetch_plan technology date (basic_units (store w)) in
  backfill_plan plan limit w [].

End Backfill.

(** ** [retrieve_additional_data] *)

(** The filter on [db.AdditionalDataRequested]. *)
Definition is_requested (tech kind : string) (r : AdditionalDataRequested)
  : bool :=
  bool_decide (data_type r = kind) && bool_decide (technology r = tech).

(** The rows of the query [requested_chunk]: the first [chunksize] rows that
    pass the filter.  PostgreSQL refuses a negative LIMIT. *)
Definition requested_chunk (tbl : list AdditionalDataRequested)
    (tech kind : string) (chunksize : Z) : result (list AdditionalDataRequested) :=
  if (chunksize <? 0)%Z then Raise StatementError
  else Ok (take (Z.to_nat chunksize) (filter (λ r, is_requested tech kind r) tbl)).

(** [for requested_unit in requested_chunk:
       if requested_unit.additional_data_id not in missed_units:
           session.delete(requested_unit)]
    on the table: [session.delete] removes the very row, and the rows of
    the chunk are the first [n] rows that pass the filter. *)
Fixpoint delete_requested (tech kind : string) (n : nat)
    (missed_units : list string) (tbl : list AdditionalDataRequested)
  : list AdditionalDataRequested :=
  match tbl with
  | [] => []
  | r :: rest =>
      if is_requested tech kind r then
        match n with
        | O => r :: rest
        | S n' =>
            if bool_decide (additional_data_id r ∈ missed_units)
            then r :: delete_requested tech kind n' missed_units rest
            else delete_requested tech kind n' missed_units rest
        end
      else r :: delete_requested tech kind n missed_units rest
  end.

(** [del d[k]] *)
Definition delitem (k : string) (d : gmap string string)
  : result (gmap string string) :=
  match d !! k with
  | Some _ => Ok (delete k d)
  | None => Raise (KeyError k)
  end.

Fixpoint delitems (ks : list string) (d : gmap string string)
  : result (gmap string string) :=
  match ks with
  | [] => Ok d
  | k :: rest => let* d' := delitem k d in delitems rest d'
  end.

Definition query_status_information : list string :=
  ["Ergebniscode"; "AufrufVeraltet"; "AufrufVersion"; "AufrufLebenszeitEnde"].

(** What one iteration of the retrieval did: the ids it selected, the
    number of units it merged and the ids it logged as missed. *)
Record Iteration : Type := {
  selected : list string;
  number_units_merged : nat;
  missed_units : list string
}.

(** Store and log of the iterations so far. *)
Record Drain : Type := {
  drain_store : Store;
  drain_log : list Iteration
}.

(** How a run of the loop ends: normally with the final [units_queried],
    with an exception, or not within the given number of iterations. *)
Inductive outcome : Type :=
  | Finished (units_queried : Z) (d : Drain)
  | Raised (e : exn) (d : Drain)
  | OutOfFuel.

(** [units_queried < limit]: an [int] and [None] do not compare. *)
Definition int_lt (a : Z) (b : option Z) : result bool :=
  match b with
  | Some b => Ok (a <? b)%Z
  | None => Raise TypeError
  end.

Section Retrieve.

(** The remote client and the helper [_flatten_dict] of the download
    module, and the primary key column of every ORM class of [db_models]:
    none of them is part of the sources.  The first argument of
    [_additional_data] counts the calls made before: one per iteration
    of the loop, since an iteration without a call is the last one. *)
Variable RawDat : Type.
Variable _additional_data :
  nat → string → list string → string → list RawDat * list string.
Variable _flatten_dict : list RawDat → list (gmap string string).
Variable primary_key : string → string.

(** The body of [for unit_dat in unit_data]; [session.merge] keeps the
    columns of a stored row that [unit_dat] does not name. *)
Definition merge_unit_dat (tech kind : string) (unit_dat : gmap string string)
    (dtl : gmap (string * string) (gmap string string))
  : result (gmap (string * string) (gmap string string)) :=
  let* unit_dat := delitems query_status_information unit_dat in
  let* by_kind := getitem orm_map tech in
  let* cls := getitem by_kind kind in
  match unit_dat !! primary_key cls with
  | Some k => Ok (<[(cls, k) := unit_dat ∪ default ∅ (dtl !! (cls, k))]> dtl)
  | None => Raise FlushError
  end.

Fixpoint merge_unit_data (tech kind : string)
    (unit_data : list (gmap string string))
    (dtl : gmap (string * string) (gmap string string))
  : result (gmap (string * string) (gmap string string)) :=
  match unit_data with
  | [] => Ok dtl
  | unit_dat :: rest =>
      let* dtl' := merge_unit_dat tech kind unit_dat dtl in
      merge_unit_data tech kind rest dtl'
  end.

(** The body of the [while] loop up to the update of [units_queried]. *)
Definition drain_iteration (tech kind : string) (chunksize : Z) (d : Drain)
  : result (Drain * Iteration) :=
  let st := drain_store d in
  let* chunk := requested_chunk (additional_data_requested st) tech kind chunksize in
  let ids := additional_data_id <$> chunk in
  match ids with
  | [] =>
      let it := {| selected := []; number_units_merged := 0;
                   missed_units := [] |} in
      Ok ({| drain_store := st; drain_log := drain_log d ++ [it] |}, it)
  | _ :: _ =>
      let* fn := getitem download_functions kind in
      let fetched := _additional_data (length (drain_log d)) tech ids fn in
      let unit_data := _flatten_dict fetched.1 in
      let* dtl := merge_unit_data tech kind unit_data (details st) in
      let it := {| selected := ids; number_units_merged := length unit_data;
                   missed_units := fetched.2 |} in
      Ok ({| drain_store :=
               {| basic_units := basic_units st;
                  additional_data_requested :=
                    delete_requested tech kind (length chunk) fetched.2
                      (additional_data_requested st);
                  missed_additional_data :=
                    missed_additional_data st ++ fetched.2;
                  details := dtl |};
             drain_log := drain_log d ++ [it] |}, it)
  end.

(** [while units_queried < limit: ...].  An exception leaves the store as
    the last commit left it. *)
Fixpoint drain_loop (fuel : nat) (tech kind : string) (limit : option Z)
    (chunksize : Z) (units_queried : Z) (d : Drain) : outcome :=
  match fuel with
  | O => OutOfFuel
  | S fuel' =>
      match int_lt units_queried limit with
      | Raise e => Raised e d
      | Ok false => Finished units_queried d
      | Ok true =>
          match drain_iteration tech kind chunksize d with
          | Raise e => Raised e d
          | Ok (d', it) =>
              let units_queried :=
                (units_queried + Z.of_nat (length (selected it)))%Z in
              if bool_decide (number_units_merged it = 0)
              then Finished units_queried d'
              else drain_loop fuel' tech kind limit chunksize units_queried d'
          end
      end
  end.

(** [if limit: if chunksize > limit: chunksize = limit] *)
Definition clamp_chunksize (limit : option Z) (chunksize : Z) : Z :=
  match limit with
  | Some l =>
      if bool_decide (l ≠ 0%Z)
      then if (chunksize >? l)%Z then l else chunksize
      else chunksize
  | None => chunksize
  end.

Definition retrieve_additional_data (fuel : nat) (tech kind : string)
    (limit : option Z) (chunksize : Z) (st : Store) : outcome :=
  let chunksize := clamp_chunksize limit chunksize in
  drain_loop fuel tech kind limit chunksize 0
    {| drain_store := st; drain_log := [] |}.

End Retrieve.

(** ** [chunks] *)

(** What iterating over a generator gives: the values it yields, or the
    exception of its first step. *)
Inductive yielded (A : Type) : Type :=
  | Yields (values : list A)
  | ValueError.
Arguments Yields {A} values.
Arguments ValueError {A}.

(** [range(0, stop, step)] for a positive [step]: its length is
    [(stop + step - 1) // step]. *)
Definition range_from_0 (stop step : nat) : list nat :=
  (λ k, k * step) <$> seq 0 ((stop + step - 1) / step).

(** [chunks(lst, n)] for a list [lst]:
    [for i in range(0, len(lst), n): yield lst[i: i + n]].
    [range] refuses the step 0 and is empty for a negative step. *)
Definition chunks {A : Type} (lst : list A) (n : Z) : yielded (list A) :=
  if bool_decide (n = 0%Z) then ValueError
  else if (n <? 0)%Z then Yields []
  else Yields ((λ i, take (Z.to_nat n) (drop i lst))
                 <$> range_from_0 (length lst) (Z.to_nat n)).

End Sync.

Module Bulk.

(** ** Strings *)

(** [s.split(sep)] for a one-character separator. *)
Fixpoint split (sep : ascii) (s : string) : list string :=
  match s with
  | EmptyString => [EmptyString]
  | String c rest =>
      if bool_decide (c = sep) then EmptyString :: split sep rest
      else match split sep rest with
           | [] => [String c EmptyString]
           | part :: parts => String c part :: parts
           end
  end.

Definition lower_ascii (c : ascii) : ascii :=
  let n := nat_of_ascii c in
  if (65 <=? n) && (n <=? 90) then ascii_of_nat (n + 32) else c.

(** [s.lower()] on the letters A to Z. *)
Fixpoint lower (s : string) : string :=
  match s with
  | EmptyString => EmptyString
  | String c rest => String (lower_ascii c) (lower rest)
  end.

(** [file_name.split("_")[0].split(".")[0].lower()] *)
Definition xml_tablename_of (file_name : string) : string :=
  lower (hd "" (split "."%char (hd "" (split "_"%char file_name)))).

(** [file_name.split(".")[0].split("_")[-1] == "1"
     or len(file_name.split(".")[0].split("_")) == 1] *)
Definition is_first_file (file_name : string) : bool :=
  let parts := split "_"%char (hd "" (split "."%char file_name)) in
  bool_decide (List.last parts "" = "1") || bool_decide (length parts = 1).

(** ** Data frames *)

(** A parsed xml file: column names and rows of cells, [None] for NaN. *)
Record DataFrame : Type := {
  df_columns : list string;
  df_rows : list (list (option string))
}.

(** [df.rename(columns=names)] *)
Definition df_rename (names : gmap string string) (df : DataFrame) : DataFrame :=
  {| df_columns := (λ c, default c (names !! c)) <$> df_columns df;
     df_rows := df_rows df |}.

(** [df.replace(entry, np.nan)]: a new frame. *)
Definition df_replace (entry : string) (df : DataFrame) : DataFrame :=
  {| df_columns := df_columns df;
     df_rows := (λ row : list (option string),
                   (λ cell, if bool_decide (cell = Some entry)
                            then None else cell) <$> row) <$> df_rows df |}.

(** ** The database *)

(** The database behind [engine] and [con], with [DataFrame.to_sql] and
    ALTER TABLE, is not part of the sources.  A table has typed columns and
    rows; a text column takes every value, an integer column takes strings
    of digits. *)
Inductive ColType : Type := ColText | ColInteger.

Record Table : Type := {
  columns : list (string * ColType);
  rows : list (list (string * option string))
}.

Definition is_digit (c : ascii) : bool :=
  let n := nat_of_ascii c in (48 <=? n) && (n <=? 57).

Fixpoint all_digits (s : string) : bool :=
  match s with
  | EmptyString => true
  | String c rest => is_digit c && all_digits rest
  end.

Definition accepts (ty : ColType) (cell : option string) : bool :=
  match ty, cell with
  | ColText, _ => true
  | ColInteger, None => true
  | ColInteger, Some v => negb (bool_decide (v = "")) && all_digits v
  end.

Fixpoint column_type_in (cols : list (string * ColType)) (c : string)
  : option ColType :=
  match cols with
  | [] => None
  | (name, ty) :: rest =>
      if bool_decide (name = c) then Some ty else column_type_in rest c
  end.

Definition column_type (t : Table) (c : string) : option ColType :=
  column_type_in (columns t) c.

(** The errors of a write that the loader catches.  The argument of
    [OperationalError] is the part of the message between
    ["has no column named "] and the line that starts with ["[SQL: "];
    the argument of [DataError] is the part of the message between the
    quotation marks. *)
Inductive write_error : Type :=
  | OperationalError (missing_column : string)
  | DataError (entry : string).

(** Whether the column of a written cell refuses its value. *)
Definition refused (t : Table) (p : string * option string) : bool :=
  match column_type t p.1 with
  | Some ty => negb (accepts ty p.2)
  | None => false
  end.

(** The first value of the rows that its column does not take. *)
Definition wrong_entry (t : Table) (written : list (list (string * option string)))
  : option string :=
  match List.find (refused t) (concat written) with
  | Some p => p.2
  | None => None
  end.

(** The rows of a frame as the write sends them: column names with cells. *)
Definition written (df : DataFrame) : list (list (string * option string)) :=
  (λ row, zip (df_columns df) row) <$> df_rows df.

(** [df.to_sql(name, con=engine, index=False, if_exists="append")]: creates
    a table that does not exist; fails on a column that the table does not
    have, then on a value that its column does not take; else appends all
    rows. *)
Definition to_sql (df : DataFrame) (name : string) (db : gmap string Table)
  : gmap string Table + write_error :=
  match db !! name with
  | None =>
      inl (<[name := {| columns := (λ c, (c, ColText)) <$> df_columns df;
                        rows := written df |}]> db)
  | Some t =>
      match list_find (λ c, c ∉ (columns t).*1) (df_columns df) with
      | Some (_, c) => inr (OperationalError c)
      | None =>
          match wrong_entry t (written df) with
          | Some v => inr (DataError v)
          | None =>
              inl (<[name := {| columns := columns t;
                                rows := rows t ++ written df |}]> db)
          end
      end
  end.

(** [ALTER TABLE name ADD "column" text NULL] *)
Definition alter_table_add (name column : string) (db : gmap string Table)
  : result (gmap string Table) :=
  match db !! name with
  | None => Raise StatementError
  | Some t =>
      if bool_decide (column ∈ (columns t).*1)
      then Raise (DuplicateColumn column)
      else Ok (<[name := {| columns := columns t ++ [(column, ColText)];
                            rows := rows t |}]> db)
  end.

(** A statement that has been built; only executing it changes a table. *)
Inductive Statement : Type :=
  | Delete (table : string).

(** [table(name)] and [sqlalchemy.delete(...)] *)
Definition table (name : string) : string := name.
Definition sqlalchemy_delete (t : string) : Statement := Delete t.

(** ** The loader *)

(** What the loader did to the database, in order. *)
Inductive Event : Type :=
  | Appended (sql_tablename : string) (number_of_rows : nat)
  | ColumnAdded (sql_tablename : string) (column : string)
  | EntryReported (entry : string).

Global Instance Event_eq_dec : EqDecision Event.
Proof. solve_decision. Defined.

Record Loader : Type := {
  database : gmap string Table;
  events : list Event
}.

Inductive outcome : Type :=
  | Done (l : Loader)
  | Raised (e : exn) (l : Loader)
  | OutOfFuel (l : Loader).

(** [add_missing_column_to_table(err, con, sql_tablename)] *)
Definition add_missing_column_to_table (err : string) (sql_tablename : string)
    (db : gmap string Table) : result (gmap string Table) :=
  let missing_column := err in
  alter_table_add sql_tablename missing_column db.

(** [delete_wrong_xml_entry(err, df)]: the frame without the entry is bound
    to the local name [df]; the function returns nothing. *)
Definition delete_wrong_xml_entry (err : string) (df : DataFrame) : unit :=
  let delete_entry := err in
  let df := df_replace delete_entry df in
  tt.

(** [while continueloop and file_name != "Einheitentypen.xml"] *)
Fixpoint write_loop (fuel : nat) (df : DataFrame)
    (file_name sql_tablename : string) (continueloop : bool) (l : Loader)
  : outcome :=
  match fuel with
  | O => OutOfFuel l
  | S fuel' =>
      if continueloop && bool_decide (file_name ≠ "Einheitentypen.xml") then
        match to_sql df sql_tablename (database l) with
        | inl db =>
            write_loop fuel' df file_name sql_tablename false
              {| database := db;
                 events := events l
                             ++ [Appended sql_tablename (length (df_rows df))] |}
        | inr (OperationalError err) =>
            match add_missing_column_to_table err sql_tablename (database l) with
            | Ok db =>
                write_loop fuel' df file_name sql_tablename continueloop
                  {| database := db;
                     events := events l ++ [ColumnAdded sql_tablename err] |}
            | Raise e => Raised e l
            end
        | inr (DataError err) =>
            let _ := delete_wrong_xml_entry err df in
            write_loop fuel' df file_name sql_tablename continueloop
              {| database := database l;
                 events := events l ++ [EntryReported err] |}
        end
      else Done l
  end.

(** An entry of the schema registry [tablename_mapping]. *)
Record TableInfo : Type := {
  mapped_class : option string;
  mapped_name : string;
  replace_column_names : option (gmap string string)
}.

Section Convert.

(** [tablename_mapping] of [open_mastr.soap_api.orm] is not part of the
    sources. *)
Variable tablename_mapping : gmap string TableInfo.

(** [add_table_to_sqlite_database]; [df] is the frame that [pd.read_xml]
    makes of the entry [file_name]. *)
Definition add_table_to_sqlite_database (fuel : nat) (df : DataFrame)
    (file_name sql_tablename xml_tablename : string) (l : Loader) : outcome :=
  let continueloop := true in
  match getitem tablename_mapping xml_tablename with
  | Raise e => Raised e l
  | Ok info =>
      let df :=
        match replace_column_names info with
        | Some names =>
            if bool_decide (names ≠ ∅) then df_rename names df else df
        | None => df
        end in
      write_loop fuel df file_name sql_tablename continueloop l
  end.

(** [for file_name in f.namelist()], with the variable
    [index_for_printed_message], which is unbound at first. *)
Fixpoint convert_entries (fuel : nat) (include_tables : list string)
    (entries : list (string * DataFrame))
    (index_for_printed_message : option nat) (l : Loader) : outcome :=
  match entries with
  | [] => Done l
  | (file_name, df) :: rest =>
      let xml_tablename := xml_tablename_of file_name in
      match getitem tablename_mapping xml_tablename with
      | Raise e => Raised e l
      | Ok info =>
          let boolean_write_table_to_sql_database :=
            bool_decide (mapped_class info ≠ None) in
          let include_count :=
            length (filter (λ x, x = xml_tablename) include_tables) in
          if bool_decide (include_count = 1)
             && boolean_write_table_to_sql_database
          then
            let sql_tablename := mapped_name info in
            let index :=
              if is_first_file file_name then
                let _ := sqlalchemy_delete (table sql_tablename) in
                Ok 1
              else
                match index_for_printed_message with
                | Some i => Ok (i + 1)
                | None => Raise (UnboundLocalError "index_for_printed_message")
                end in
            match index with
            | Raise e => Raised e l
            | Ok i =>
                match add_table_to_sqlite_database fuel df file_name
                        sql_tablename xml_tablename l with
                | Done l' =>
                    convert_entries fuel include_tables rest (Some i) l'
                | stopped => stopped
                end
            end
          else
            convert_entries fuel include_tables rest
              index_for_printed_message l
      end
  end.

(** [convert_mastr_xml_to_sqlite]; [entries] are the entries of the zip
    file in the order of [f.namelist()]. *)
Definition convert_mastr_xml_to_sqlite (fuel : nat)
    (entries : list (string * DataFrame)) (include_tables : list string)
    (db : gmap string Table) : outcome :=
  convert_entries fuel include_tables entries None
    {| database := db; events := [] |}.

End Convert.

(** ** [handle_xml_syntax_error] *)

(** A decoded string is the list of the code points of its characters. *)
Definition greater_than_sign : N := 62.
Definition less_than_sign : N := 60.

(** [s[i]]: a negative index counts from the end; [None] is the
    IndexError of an index out of range. *)
Definition index {A : Type} (s : list A) (i : Z) : option A :=
  let n := Z.of_nat (length s) in
  if (0 <=? i)%Z then s !! Z.to_nat i
  else if (- n <=? i)%Z then s !! Z.to_nat (n + i)
  else None.

(** The position of the bound [i] of a slice of a sequence of length [n]. *)
Definition slice_bound (n : nat) (i : Z) : nat :=
  if (i <? 0)%Z then Z.to_nat (Z.of_nat n + i) else Nat.min (Z.to_nat i) n.

(** [s[:i]] and [s[i:]] *)
Definition slice_to {A : Type} (s : list A) (i : Z) : list A :=
  take (slice_bound (length s) i) s.

Definition slice_from {A : Type} (s : list A) (i : Z) : list A :=
  drop (slice_bound (length s) i) s.

(** What a [while True] loop gives: the value at its [break], an
    IndexError, or no end within the given number of iterations. *)
Inductive looped (A : Type) : Type :=
  | Returns (a : A)
  | IndexError
  | Unfinished.
Arguments Returns {A} a.
Arguments IndexError {A}.
Arguments Unfinished {A}.

(** The first loop: from the position of the error back to a [">"]. *)
Fixpoint find_start_char (fuel : nat) (decoded_data : list N)
    (wrong_char_position shift : Z) : looped Z :=
  match fuel with
  | O => Unfinished
  | S fuel' =>
      match index decoded_data (wrong_char_position + shift) with
      | None => IndexError
      | Some evaluated_string =>
          if bool_decide (evaluated_string = greater_than_sign)
          then Returns (wrong_char_position + shift + 1)%Z
          else find_start_char fuel' decoded_data wrong_char_position
                 (shift - 1)%Z
      end
  end.

(** The second loop: characters at [start_char] are deleted until the
    character there is a ["<"]. *)
Fixpoint delete_to_next_tag (fuel : nat) (decoded_data : list N)
    (start_char : Z) : looped (list N) :=
  match fuel with
  | O => Unfinished
  | S fuel' =>
      match index decoded_data start_char with
      | None => IndexError
      | Some evaluated_string =>
          if bool_decide (evaluated_string = less_than_sign)
          then Returns decoded_data
          else delete_to_next_tag fuel'
                 (slice_to decoded_data start_char
                    ++ slice_from decoded_data (start_char + 1)%Z)
                 start_char
      end
  end.

(** [handle_xml_syntax_error(data, err)] up to the call of [pd.read_xml]:
    [decoded_data] is [data.decode("utf-16")], [wrong_char_position] is the
    number in the message of [err]; the result is the string that
    [pd.read_xml] gets. *)
Definition handle_xml_syntax_error (fuel : nat) (decoded_data : list N)
    (wrong_char_position : Z) : looped (list N) :=
  match find_start_char fuel decoded_data wrong_char_position 0 with
  | Returns start_char => delete_to_next_tag fuel decoded_data start_char
  | IndexError => IndexError
  | Unfinished => Unfinished
  end.

End Bulk.

(** * Example data *)

Module Examples.
Import Sync Bulk.

(** A wind turbine with an EEG reference. *)
Definition wind_unit (id : string) (t : Z) (text : string) : BasicUnit :=
  {| EinheitMastrNummer := id;
     Einheittyp := "Windeinheit";
     DatumLetzeAktualisierung := t;
     EegMastrNummer := Some "EEG1";
     KwkMastrNummer := None;
     GenMastrNummer := None;
     payload := text |}.

Definition solar_unit (id : string) (t : Z) : BasicUnit :=
  {| EinheitMastrNummer := id;
     Einheittyp := "Solareinheit";
     DatumLetzeAktualisierung := t;
     EegMastrNummer := None;
     KwkMastrNummer := None;
     GenMastrNummer := None;
     payload := "" |}.

Definition store_of (units : list BasicUnit) : Store :=
  {| basic_units := units;
     additional_data_requested := [];
     missed_additional_data := [];
     details := ∅ |}.

(** A request for the extended data of a wind turbine. *)
Definition wind_request (id : string) : AdditionalDataRequested :=
  {| req_EinheitMastrNummer := id;
     additional_data_id := id;
     technology := "wind";
     data_type := "unit_data";
     request_date := 0 |}.

Definition requests_store (ids : list string) : Store :=
  {| basic_units := [];
     additional_data_requested := wind_request <$> ids;
     missed_additional_data := [];
     details := ∅ |}.

(** The answer of the registry for one unit. *)
Definition unit_answer (id : string) : gmap string string :=
  dict [ ("EinheitMastrNummer", id); ("Ergebniscode", "OK");
         ("AufrufVeraltet", "false"); ("AufrufVersion", "1");
         ("AufrufLebenszeitEnde", "") ].

(** A client that finds every unit, and one that finds none. *)
Definition client_all (n : nat) (tech : string) (ids : list string)
    (fn : string) : list (gmap string string) * list string :=
  (unit_answer <$> ids, []).

Definition client_none (n : nat) (tech : string) (ids : list string)
    (fn : string) : list (gmap string string) * list string :=
  ([], ids).

Definition flat (unit_data : list (gmap string string))
  : list (gmap string string) := unit_data.

Definition unit_key (cls : string) : string := "EinheitMastrNummer".

(** A client for basic units that yields nothing. *)
Definition no_basic_units (tech : option string) (limit : Z)
    (date_from : option Z) : list (list BasicUnit) := [].

(** The registry entry and the frames of the solar files. *)
Definition solar_mapping : gmap string TableInfo :=
  {[ "solar" := {| mapped_class := Some "Solar";
                   mapped_name := "solar";
                   replace_column_names := None |} ]}.

Definition solar_frame (n : nat) : DataFrame :=
  {| df_columns := ["Id"]; df_rows := replicate n [Some "unit"] |}.

Definition old_solar_table : Table :=
  {| columns := [("Id", ColText)]; rows := [[("Id", Some "old")]] |}.

(** A table with an integer column and a frame with a value that is no
    integer. *)
Definition power_table : Table :=
  {| columns := [("Leistung", ColInteger)]; rows := [] |}.

Definition power_frame : DataFrame :=
  {| df_columns := ["Leistung"];
     df_rows := [[Some "12"]; [Some "abc"]; [Some "7"]] |}.

(** A frame with a column [X] that the table does not have. *)
Definition id_table : Table :=
  {| columns := [("Id", ColText)]; rows := [] |}.


(** A unit of a type that [unit_type_map] does not have. *)
Definition tidal_unit (id : string) (t : Z) : BasicUnit :=
  {| EinheitMastrNummer := id;
     Einheittyp := "Gezeitenkraft";
     DatumLetzeAktualisierung := t;
     EegMastrNummer := None;
     KwkMastrNummer := None;
     GenMastrNummer := None;
     payload := "" |}.

(** A store with one request. *)
Definition one_request_store (tech kind id : string) : Store :=
  {| basic_units := [];
     additional_data_requested :=
       [ {| req_EinheitMastrNummer := id;
            additional_data_id := id;
            technology := tech;
            data_type := kind;
            request_date := 0 |} ];
     missed_additional_data := [];
     details := ∅ |}.

(** The code points of a string of ASCII characters. *)
Fixpoint code_points (s : string) : list N :=
  match s with
  | EmptyString => []
  | String c rest => N_of_ascii c :: code_points rest
  end.


End Examples.

(** * Properties of the incremental mirror *)

Module SyncProofs.
Import Sync.

(** ** Lists *)

Lemma filter_none {A} (P : A → Prop) `{!∀ x, Decision (P x)} (l : list A) :
  (∀ x, x ∈ l → ¬ P x) → filter P l = [].
Proof.
  induction l as [|x l IH]; intros Hall; [done|].
  rewrite filter_cons_False by (apply Hall; left).
  apply IH. intros y Hy. apply Hall. by right.
Qed.

Lemma filter_all {A} (P : A → Prop) `{!∀ x, Decision (P x)} (l : list A) :
  (∀ x, x ∈ l → P x) → filter P l = l.
Proof.
  induction l as [|x l IH]; intros Hall; [done|].
  rewrite filter_cons_True by (apply Hall; left).
  f_equal. apply IH. intros y Hy. apply Hall. by right.
Qed.

Lemma filter_ext_elem {A} (P Q : A → Prop) `{!∀ x, Decision (P x)}
    `{!∀ x, Decision (Q x)} (l : list A) :
  (∀ x, x ∈ l → P x ↔ Q x) → filter P l = filter Q l.
Proof.
  induction l as [|x l IH]; intros Hall; [done|].
  rewrite !filter_cons.
  assert (Hx : P x ↔ Q x) by (apply Hall; left).
  rewrite IH by (intros y Hy; apply Hall; by right).
  destruct (decide (P x)), (decide (Q x)); tauto.
Qed.

Lemma NoDup_fmap_filter {A B} (f : A → B) (P : A → Prop)
    `{!∀ x, Decision (P x)} (l : list A) :
  NoDup (f <$> l) → NoDup (f <$> filter P l).
Proof.
  induction l as [|x l IH]; intros Hnd; [done|].
  rewrite fmap_cons in Hnd. apply NoDup_cons in Hnd as [Hx Hnd].
  rewrite filter_cons. case_decide; [|by apply IH].
  rewrite fmap_cons. apply NoDup_cons. split; [|by apply IH].
  intros (y & Hy & Hin)%list_elem_of_fmap.
  apply list_elem_of_filter in Hin as [_ Hin].
  apply Hx. rewrite Hy. by apply list_elem_of_fmap_2.
Qed.

Lemma take_length_take {A} (l : list A) n : take (length (take n l)) l = take n l.
Proof.
  rewrite length_take. destruct (Nat.le_ge_cases n (length l)).
  - by rewrite Nat.min_l.
  - rewrite Nat.min_r by done. by rewrite !take_ge.
Qed.

(** ** Duplicates within a chunk *)

Lemma drop_past_prefix (pre : list BasicUnit) u rest :
  drop (S (length pre + 0)) (pre ++ u :: rest) = rest.
Proof.
  rewrite Nat.add_0_r. change (S (length pre)) with (1 + length pre).
  rewrite Nat.add_comm, <- drop_drop, drop_app_length. done.
Qed.

(** The positions of [enumerate] only matter through the suffix they cut
    out of the chunk. *)
Lemma unique_shift (pre l : list BasicUnit) :
  snd <$>
    filter (λ p : nat * BasicUnit,
              EinheitMastrNummer p.2 ∉ unit_ids (drop (S p.1) (pre ++ l)))
           (imap (λ n x, (length pre + n, x)) l)
  = basic_units_chunk_unique l.
Proof.
  revert pre. induction l as [|u rest IH]; intros pre; [done|].
  unfold basic_units_chunk_unique, enumerate.
  rewrite !imap_cons, !filter_cons. simpl fst; simpl snd.
  rewrite drop_past_prefix. change (drop 1 (u :: rest)) with rest.
  assert (Hl : snd <$> filter (λ p : nat * BasicUnit,
                EinheitMastrNummer p.2 ∉ unit_ids (drop (S p.1) (pre ++ u :: rest)))
             (imap ((λ n x, (length pre + n, x)) ∘ S) rest)
          = basic_units_chunk_unique rest).
  { rewrite <- (IH (pre ++ [u])). rewrite <- app_assoc. simpl.
    f_equal. f_equal. apply imap_ext. intros i x _. simpl.
    rewrite length_app. simpl. f_equal. lia. }
  assert (Hr : snd <$> filter (λ p : nat * BasicUnit,
                EinheitMastrNummer p.2 ∉ unit_ids (drop (S p.1) (u :: rest)))
             (imap ((λ n x, (n, x)) ∘ S) rest)
          = basic_units_chunk_unique rest).
  { rewrite <- (IH [u]). simpl. done. }
  destruct (decide (EinheitMastrNummer u ∉ unit_ids rest)).
  - rewrite !fmap_cons, Hl, Hr. done.
  - rewrite Hl, Hr. done.
Qed.

(** The comprehension, by recursion on the chunk. *)
Lemma unique_cons u rest :
  basic_units_chunk_unique (u :: rest)
  = if decide (EinheitMastrNummer u ∈ unit_ids rest)
    then basic_units_chunk_unique rest
    else u :: basic_units_chunk_unique rest.
Proof.
  rewrite <- (unique_shift [] (u :: rest)). simpl app. simpl length.
  rewrite imap_cons, filter_cons. simpl fst; simpl snd.
  change (drop 1 (u :: rest)) with rest.
  pose proof (unique_shift [u] rest) as H. simpl in H.
  destruct (decide (EinheitMastrNummer u ∈ unit_ids rest)) as [Hin|Hin].
  - rewrite decide_False by (intros Hn; by apply Hn). done.
  - rewrite decide_True by done. simpl. f_equal. done.
Qed.

Lemma unique_elem_of_chunk l u :
  u ∈ basic_units_chunk_unique l → u ∈ l.
Proof.
  induction l as [|v rest IH]; [done|].
  rewrite unique_cons. case_decide; rewrite ?elem_of_cons; intuition.
Qed.

Lemma unique_ids l i :
  i ∈ unit_ids (basic_units_chunk_unique l) ↔ i ∈ unit_ids l.
Proof.
  induction l as [|v rest IH]; [done|].
  rewrite unique_cons. unfold unit_ids in *. case_decide.
  - rewrite fmap_cons, elem_of_cons, IH. intuition congruence.
  - rewrite !fmap_cons, !elem_of_cons, IH. done.
Qed.

Lemma unique_NoDup l : NoDup (unit_ids (basic_units_chunk_unique l)).
Proof.
  induction l as [|v rest IH]; [constructor|].
  rewrite unique_cons. case_decide; [done|].
  unfold unit_ids. rewrite fmap_cons. apply NoDup_cons. split; [|done].
  fold (unit_ids (basic_units_chunk_unique rest)). by rewrite unique_ids.
Qed.

(** A survivor is followed by no unit of the same id. *)
Lemma unique_last l u :
  u ∈ basic_units_chunk_unique l ↔
  ∃ l1 l2, l = l1 ++ u :: l2 ∧ EinheitMastrNummer u ∉ unit_ids l2.
Proof.
  induction l as [|v rest IH].
  - split; [by intros ?%elem_of_nil|]. intros (l1 & l2 & H & _).
    by destruct l1.
  - rewrite unique_cons. split.
    + intros Hin.
      assert (Hcase : (u = v ∧ EinheitMastrNummer v ∉ unit_ids rest)
                      ∨ u ∈ basic_units_chunk_unique rest).
      { case_decide; [by right|]. apply elem_of_cons in Hin as [->|Hin];
          [by left|by right]. }
      destruct Hcase as [[-> Hv]|Hrest].
      * by exists [], rest.
      * apply IH in Hrest as (l1 & l2 & -> & Hl2). by exists (v :: l1), l2.
    + intros (l1 & l2 & Heq & Hl2). destruct l1 as [|w l1]; simplify_eq/=.
      * rewrite decide_False by done. left.
      * assert (u ∈ basic_units_chunk_unique (l1 ++ u :: l2))
          by (apply IH; eauto).
        case_decide; [done|by right].
Qed.

Lemma filter_id_NoDup (l : list BasicUnit) u :
  NoDup (unit_ids l) → u ∈ l →
  filter (λ r, EinheitMastrNummer r = EinheitMastrNummer u) l = [u].
Proof.
  induction l as [|v rest IH]; intros Hnd Hin; [by apply elem_of_nil in Hin|].
  unfold unit_ids in Hnd. rewrite fmap_cons in Hnd.
  apply NoDup_cons in Hnd as [Hv Hnd].
  assert (Hnone : ∀ w, w ∈ rest → EinheitMastrNummer w = EinheitMastrNummer v →
                       False).
  { intros w Hw Heq. apply Hv. rewrite <- Heq. by apply list_elem_of_fmap_2. }
  apply elem_of_cons in Hin as [->|Hin].
  - rewrite filter_cons_True by done. f_equal.
    apply filter_none. intros w Hw Heq. eauto.
  - rewrite filter_cons_False by (intros Heq; eauto). by apply IH.
Qed.

(** C2. For every chunk and every unit id that occurs in it, exactly one
    unit of that id is left by the removal of duplicates at the head of
    [backfill_basic], and it is the last unit of that id in the order of the
    chunk: no unit of the same id follows it. *)
Theorem C2_dedup_keeps_last_occurrence (chunk : list BasicUnit) (i : string) :
  i ∈ unit_ids chunk →
  ∃ u l1 l2,
    chunk = l1 ++ (u :: l2)
    ∧ EinheitMastrNummer u = i
    ∧ (i ∉ unit_ids l2)
    ∧ filter (λ r, EinheitMastrNummer r = i) (basic_units_chunk_unique chunk)
      = [u].
Proof.
  intros Hi. apply unique_ids in Hi.
  apply list_elem_of_fmap in Hi as (u & -> & Hu).
  pose proof Hu as Hlast. apply unique_last in Hlast as (l1 & l2 & Hc & Hl2).
  exists u, l1, l2. repeat split; try done.
  apply filter_id_NoDup; [apply unique_NoDup|done].
Qed.

(** ** Merging a chunk into the table of basic units *)

Local Abbreviation uid := EinheitMastrNummer.
Local Abbreviation ts := DatumLetzeAktualisierung.

Lemma exists_older_true tbl u :
  exists_older tbl u = true ↔
  ∃ r, r ∈ tbl ∧ uid r = uid u ∧ (ts r < ts u)%Z.
Proof.
  unfold exists_older. rewrite existsb_exists. split.
  - intros (r & Hin & Hr). apply andb_true_iff in Hr as [Hid Hlt].
    apply bool_decide_eq_true in Hid. apply Z.ltb_lt in Hlt.
    exists r. by rewrite list_elem_of_In.
  - intros (r & Hin & Hid & Hlt). exists r. rewrite <- list_elem_of_In.
    split; [done|]. apply andb_true_iff. split.
    + by apply bool_decide_eq_true.
    + by apply Z.ltb_lt.
Qed.

Lemma exists_older_false tbl u :
  exists_older tbl u = false ↔
  ∀ r, r ∈ tbl → uid r = uid u → ¬ (ts r < ts u)%Z.
Proof.
  rewrite <- not_true_iff_false, exists_older_true. split.
  - intros Hno r Hr Hid Hlt. apply Hno. eauto.
  - intros Hall (r & Hr & Hid & Hlt). by eapply Hall.
Qed.

Lemma exists_older_ext t1 t2 v :
  (∀ r, uid r = uid v → (r ∈ t1 ↔ r ∈ t2)) →
  exists_older t1 v = exists_older t2 v.
Proof.
  intros Hext. destruct (exists_older t2 v) eqn:H2.
  - apply exists_older_true in H2 as (r & Hin & Hid & Hlt).
    apply exists_older_true. exists r. by rewrite Hext.
  - apply exists_older_false. intros r Hin Hid.
    rewrite exists_older_false in H2. apply H2; [|done]. by rewrite <- Hext.
Qed.

Lemma exists_older_stored tbl u :
  exists_older tbl u = true → uid u ∈ unit_ids tbl.
Proof.
  intros (r & Hin & Hid & _)%exists_older_true. rewrite <- Hid.
  by apply list_elem_of_fmap_2.
Qed.

Lemma session_merge_ids u tbl :
  uid u ∈ unit_ids tbl → unit_ids (session_merge u tbl) = unit_ids tbl.
Proof.
  intros Hin. unfold session_merge. rewrite bool_decide_eq_true_2 by done.
  unfold unit_ids. rewrite <- list_fmap_compose. apply list_fmap_ext.
  intros i r _. simpl. by case_bool_decide.
Qed.

Lemma session_merge_elem u tbl r :
  uid u ∈ unit_ids tbl →
  r ∈ session_merge u tbl ↔ (r ∈ tbl ∧ uid r ≠ uid u) ∨ r = u.
Proof.
  intros Hin. unfold session_merge. rewrite bool_decide_eq_true_2 by done.
  rewrite list_elem_of_fmap. split.
  - intros (r0 & -> & Hr0). case_bool_decide; [by right|by left].
  - intros [[Hr Hne]| ->].
    + exists r. by rewrite bool_decide_eq_false_2.
    + apply list_elem_of_fmap in Hin as (r0 & Hid & Hr0).
      exists r0. by rewrite bool_decide_eq_true_2.
Qed.

Lemma bulk_save_objects_ok objs tbl :
  NoDup (unit_ids (tbl ++ objs)) →
  bulk_save_objects objs tbl = Ok (tbl ++ objs).
Proof.
  revert tbl. induction objs as [|o rest IH]; intros tbl Hnd; simpl.
  - by rewrite app_nil_r.
  - assert (Hsplit : tbl ++ o :: rest = (tbl ++ [o]) ++ rest)
      by (by rewrite <- app_assoc).
    rewrite bool_decide_eq_false_2.
    + rewrite Hsplit. apply IH. by rewrite <- Hsplit.
    + unfold unit_ids in Hnd. rewrite fmap_app, fmap_cons in Hnd.
      apply NoDup_app in Hnd as (_ & Hdisj & _). intros Hin.
      apply (Hdisj _ Hin). left.
Qed.

Lemma unit_ids_inj tbl r1 r2 :
  NoDup (unit_ids tbl) → r1 ∈ tbl → r2 ∈ tbl → uid r1 = uid r2 → r1 = r2.
Proof.
  induction tbl as [|r tbl IH]; intros Hnd H1 H2 Heq.
  - by apply elem_of_nil in H1.
  - unfold unit_ids in Hnd. rewrite fmap_cons in Hnd.
    apply NoDup_cons in Hnd as [Hr Hnd].
    assert (Hfresh : ∀ w, w ∈ tbl → uid w ≠ uid r).
    { intros w Hw Hid. apply Hr. rewrite <- Hid. by apply list_elem_of_fmap_2. }
    apply elem_of_cons in H1 as [->|H1]; apply elem_of_cons in H2 as [->|H2].
    + done.
    + exfalso. by eapply Hfresh.
    + exfalso. by eapply Hfresh.
    + by apply IH.
Qed.

Lemma stored_id tbl r : r ∈ tbl → uid r ∈ unit_ids tbl.
Proof. apply list_elem_of_fmap_2. Qed.

(** The loop over the deduplicated chunk: [insert] takes the units whose
    id is not stored, [updated] those with an older stored row, and these
    replace their rows. *)
Lemma classify_units_spec common units :
  ∀ ins0 upd0 tbl0,
    NoDup (unit_ids units) →
    NoDup (unit_ids tbl0) →
    (∀ u, u ∈ units → uid u ∈ common ↔ uid u ∈ unit_ids tbl0) →
    ∃ tbl',
      classify_units common units ins0 upd0 tbl0
      = (ins0 ++ filter (λ u, uid u ∉ unit_ids tbl0) units,
         upd0 ++ filter (λ u, exists_older tbl0 u) units, tbl')
      ∧ unit_ids tbl' = unit_ids tbl0
      ∧ ∀ r, r ∈ tbl' ↔
             (r ∈ tbl0 ∧ ∀ u, u ∈ units → uid u = uid r → ¬ (ts r < ts u)%Z)
             ∨ (r ∈ units ∧ exists_older tbl0 r = true).
Proof.
  induction units as [|u rest IH]; intros ins0 upd0 tbl0 Hnd Htbl Hcommon.
  - exists tbl0. simpl. rewrite !app_nil_r. repeat split; try done.
    + intros Hr. left. split; [done|]. by intros u ?%elem_of_nil.
    + intros [[Hr _]|[?%elem_of_nil _]]; done.
  - unfold unit_ids in Hnd. rewrite fmap_cons in Hnd.
    apply NoDup_cons in Hnd as [Hu Hnd]. fold (unit_ids rest) in Hu, Hnd.
    assert (Hne : ∀ v, v ∈ rest → uid v ≠ uid u).
    { intros v Hv Heq. apply Hu. rewrite <- Heq. by apply list_elem_of_fmap_2. }
    simpl. destruct (bool_decide (uid u ∈ common)) eqn:Hc.
    + apply bool_decide_eq_true in Hc.
      assert (Hst : uid u ∈ unit_ids tbl0) by (apply Hcommon; [left|done]).
      destruct (exists_older tbl0 u) eqn:Hold.
      * destruct (IH ins0 (upd0 ++ [u]) (session_merge u tbl0) Hnd)
          as (tbl' & Heq & Hids & Hmem).
        { by rewrite session_merge_ids. }
        { intros v Hv. rewrite session_merge_ids by done.
          apply Hcommon. by right. }
        assert (Hext : ∀ v, v ∈ rest →
                  exists_older (session_merge u tbl0) v = exists_older tbl0 v).
        { intros v Hv. apply exists_older_ext. intros r Hid.
          rewrite session_merge_elem by done. specialize (Hne v Hv).
          split; [intros [[? _]| ->]; [done|congruence] |].
          intros Hr. left. split; [done|congruence]. }
        assert (Hf : filter (λ v, exists_older (session_merge u tbl0) v) rest
                     = filter (λ v, exists_older tbl0 v) rest).
        { apply filter_ext_elem. intros v Hv. by rewrite Hext. }
        exists tbl'. rewrite Heq, Hf, session_merge_ids in * by done.
        split; [|split; [done|]].
        -- rewrite filter_cons_False by (intros Hn; by apply Hn).
           rewrite filter_cons_True by (by rewrite Hold).
           by rewrite <- app_assoc.
        -- intros r. rewrite Hmem, session_merge_elem by done. split.
           ++ intros [[[[Hr Hid]| ->] Hall]|[Hr Hol]].
              ** left. split; [done|]. intros v [->|Hv]%elem_of_cons Hv2;
                   [congruence|by apply Hall].
              ** right. split; [left|done].
              ** right. split; [by right|]. by rewrite <- Hext.
           ++ intros [[Hr Hall]|[[->|Hr]%elem_of_cons Hol]].
              ** left. split.
                 --- left. split; [done|]. intros Hid.
                     apply exists_older_true in Hold as (r0 & Hr0 & Hid0 & Hlt).
                     assert (r0 = r) as ->
                       by (eapply unit_ids_inj; [done..|congruence]).
                     eapply Hall; [left|done..].
                 --- intros v Hv. apply Hall. by right.
              ** left. split; [by right|]. intros v Hv Hid. by destruct (Hne v Hv).
              ** right. split; [done|]. by rewrite Hext.
      * destruct (IH ins0 upd0 tbl0 Hnd Htbl) as (tbl' & Heq & Hids & Hmem).
        { intros v Hv. apply Hcommon. by right. }
        exists tbl'. rewrite Heq. split; [|split; [done|]].
        -- rewrite filter_cons_False by (intros Hn; by apply Hn).
           rewrite filter_cons_False by (rewrite Hold; intros []). done.
        -- intros r. rewrite Hmem. split.
           ++ intros [[Hr Hall]|[Hr Hol]].
              ** left. split; [done|].
                 intros v [->|Hv]%elem_of_cons Hid; [|by apply Hall].
                 rewrite exists_older_false in Hold. by apply Hold.
              ** right. split; [by right|done].
           ++ intros [[Hr Hall]|[[->|Hr]%elem_of_cons Hol]].
              ** left. split; [done|]. intros v Hv. apply Hall. by right.
              ** congruence.
              ** by right.
    + apply bool_decide_eq_false in Hc.
      assert (Hst : uid u ∉ unit_ids tbl0).
      { intros Hin. apply Hc. apply Hcommon; [left|done]. }
      destruct (IH (ins0 ++ [u]) upd0 tbl0 Hnd Htbl) as (tbl' & Heq & Hids & Hmem).
      { intros v Hv. apply Hcommon. by right. }
      exists tbl'. rewrite Heq. split; [|split; [done|]].
      * rewrite filter_cons_True by done. rewrite <- app_assoc. simpl.
        rewrite filter_cons_False; [done|].
        intros Hol. apply Hst. apply exists_older_stored. by destruct (exists_older tbl0 u).
      * intros r. rewrite Hmem. split.
        -- intros [[Hr Hall]|[Hr Hol]].
           ++ left. split; [done|].
              intros v [->|Hv]%elem_of_cons Hid; [|by apply Hall].
              exfalso. apply Hst. rewrite Hid. by apply stored_id.
           ++ right. split; [by right|done].
        -- intros [[Hr Hall]|[[->|Hr]%elem_of_cons Hol]].
           ++ left. split; [done|]. intros v Hv. apply Hall. by right.
           ++ exfalso. by apply Hst, exists_older_stored.
           ++ by right.
Qed.

Lemma common_ids_elem tbl ids i :
  i ∈ common_ids tbl ids ↔ i ∈ unit_ids tbl ∧ i ∈ ids.
Proof.
  unfold common_ids, unit_ids. rewrite !list_elem_of_fmap. split.
  - intros (r & -> & [Hids Hr]%list_elem_of_filter). eauto.
  - intros [(r & -> & Hr) Hids]. exists r. split; [done|].
    by apply list_elem_of_filter.
Qed.

(** One chunk against a table whose ids are unique: the write succeeds,
    the ids stay unique, and the rows afterwards are the stored rows that
    no unit of the chunk is newer than, and the units of the deduplicated
    chunk that are new or newer than their stored row. *)
Lemma merge_basic_chunk_spec chunk tbl :
  NoDup (unit_ids tbl) →
  ∃ tbl',
    merge_basic_chunk chunk tbl
    = Ok (tbl',
          filter (λ u, uid u ∉ unit_ids tbl) (basic_units_chunk_unique chunk)
          ++ filter (λ u, exists_older tbl u) (basic_units_chunk_unique chunk))
    ∧ NoDup (unit_ids tbl')
    ∧ ∀ r, r ∈ tbl' ↔
           (r ∈ tbl
            ∧ ∀ u, u ∈ basic_units_chunk_unique chunk → uid u = uid r →
                   ¬ (ts r < ts u)%Z)
           ∨ (r ∈ basic_units_chunk_unique chunk
              ∧ (uid r ∉ unit_ids tbl ∨ exists_older tbl r = true)).
Proof.
  intros Htbl. unfold merge_basic_chunk.
  set (U := basic_units_chunk_unique chunk).
  destruct (classify_units_spec (common_ids tbl (unit_ids U)) U [] [] tbl)
    as (tbl1 & Heq & Hids & Hmem); [apply unique_NoDup|done| |].
  { intros u Hu. rewrite common_ids_elem. split; [tauto|].
    intros Hst. split; [done|by apply stored_id]. }
  rewrite Heq. simpl.
  set (ins := filter (λ u, uid u ∉ unit_ids tbl) U).
  assert (Hnd : NoDup (unit_ids (tbl1 ++ ins))).
  { unfold unit_ids. rewrite fmap_app. apply NoDup_app. split; [|split].
    - fold (unit_ids tbl1). by rewrite Hids.
    - fold (unit_ids tbl1). rewrite Hids.
      intros i Hi (u & -> & [Hu _]%list_elem_of_filter)%list_elem_of_fmap.
      done.
    - apply NoDup_fmap_filter, unique_NoDup. }
  rewrite bulk_save_objects_ok by done. simpl.
  exists (tbl1 ++ ins). split; [done|split; [done|]].
  intros r. rewrite elem_of_app, Hmem. unfold ins.
  rewrite list_elem_of_filter. tauto.
Qed.



(** The table of basic units after [process_chunk] is the one that
    [merge_basic_chunk] computes. *)
Lemma process_chunk_basic_units chunk w w' :
  process_chunk chunk w = Ok w' →
  ∃ iu, merge_basic_chunk chunk (basic_units (store w))
        = Ok (basic_units (store w'), iu).
Proof.
  unfold process_chunk. intros Heq.
  destruct (merge_basic_chunk chunk (basic_units (store w))) as [[tbl iu]|e];
    [|done]. simpl in Heq.
  destruct (submit_units iu _) as [s|e]; [|done]. simpl in Heq.
  injection Heq as <-. by exists iu.
Qed.


(** ** Running [backfill_basic] again on the same chunks *)

(** Every unit that the chunk keeps has a stored row that is not older. *)
Definition covered (tbl : list BasicUnit) (chunk : list BasicUnit) : Prop :=
  ∀ u, u ∈ basic_units_chunk_unique chunk →
       ∃ r, r ∈ tbl ∧ uid r = uid u ∧ ¬ (ts r < ts u)%Z.

Lemma classify_units_covered common units ins upd tbl :
  (∀ u, u ∈ units → uid u ∈ common ∧ exists_older tbl u = false) →
  classify_units common units ins upd tbl = (ins, upd, tbl).
Proof.
  induction units as [|u rest IH]; intros Hall; [done|]. simpl.
  destruct (Hall u) as [Hc Hold]; [left|].
  rewrite bool_decide_eq_true_2, Hold by done.
  apply IH. intros v Hv. apply Hall. by right.
Qed.

Lemma merge_basic_chunk_covered chunk tbl :
  NoDup (unit_ids tbl) → covered tbl chunk →
  merge_basic_chunk chunk tbl = Ok (tbl, []).
Proof.
  intros Hnd Hcov. unfold merge_basic_chunk.
  rewrite classify_units_covered; [done|].
  intros u Hu. destruct (Hcov u Hu) as (r & Hr & Hid & Hnew). split.
  - apply common_ids_elem. split; [rewrite <- Hid|]; by apply stored_id.
  - apply exists_older_false. intros r' Hr' Hid'.
    assert (r' = r) as ->; [|done].
    eapply unit_ids_inj; [done..|congruence].
Qed.

Lemma merge_basic_chunk_covers chunk tbl tbl' iu :
  NoDup (unit_ids tbl) →
  merge_basic_chunk chunk tbl = Ok (tbl', iu) → covered tbl' chunk.
Proof.
  intros Hnd Heq u Hu.
  destruct (merge_basic_chunk_spec chunk tbl Hnd) as (t & Heq' & _ & Hmem).
  rewrite Heq in Heq'. injection Heq' as <- _.
  destruct (decide (uid u ∈ unit_ids tbl)) as [Hin|Hin].
  - destruct (exists_older tbl u) eqn:Hold.
    + exists u. split; [|split; [done|lia]]. apply Hmem. right. eauto.
    + apply list_elem_of_fmap in Hin as (r & Hid & Hr).
      rewrite exists_older_false in Hold.
      exists r. split; [|split; [done|by apply Hold]].
      apply Hmem. left. split; [done|]. intros v Hv Hidv.
      assert (v = u) as ->; [|by apply Hold].
      eapply unit_ids_inj; [apply unique_NoDup|done..|congruence].
  - exists u. split; [|split; [done|lia]]. apply Hmem. right. eauto.
Qed.

Lemma merge_basic_chunk_keeps_covered chunk other tbl tbl' iu :
  NoDup (unit_ids tbl) →
  merge_basic_chunk other tbl = Ok (tbl', iu) →
  covered tbl chunk → covered tbl' chunk.
Proof.
  intros Hnd Heq Hcov u Hu.
  destruct (merge_basic_chunk_spec other tbl Hnd) as (t & Heq' & _ & Hmem).
  rewrite Heq in Heq'. injection Heq' as <- _.
  destruct (Hcov u Hu) as (r & Hr & Hid & Hnew).
  destruct (decide (Exists (λ v, uid v = uid r ∧ (ts r < ts v)%Z)
                           (basic_units_chunk_unique other))) as [Hex|Hex].
  - apply Exists_exists in Hex as (v & Hv & Hidv & Hlt).
    exists v. split; [|split; [congruence|lia]].
    apply Hmem. right. split; [done|]. right. apply exists_older_true. eauto.
  - exists r. split; [|done]. apply Hmem. left. split; [done|].
    intros v Hv Hidv Hlt. apply Hex, Exists_exists. eauto.
Qed.

(** A chunk that brings nothing new leaves store and clock as they are. *)
Lemma process_chunk_covered chunk w :
  NoDup (unit_ids (basic_units (store w))) →
  covered (basic_units (store w)) chunk →
  process_chunk chunk w = Ok w.
Proof.
  intros Hnd Hcov. unfold process_chunk.
  rewrite merge_basic_chunk_covered by done. simpl.
  rewrite !app_nil_r. by destruct w as [[] ?].
Qed.

Lemma process_chunks_covered chunks w :
  NoDup (unit_ids (basic_units (store w))) →
  (∀ c, c ∈ chunks → covered (basic_units (store w)) c) →
  process_chunks chunks w = Ok w.
Proof.
  intros Hnd. induction chunks as [|c rest IH]; intros Hcov; [done|]. simpl.
  rewrite process_chunk_covered; [|done|apply Hcov; left]. simpl.
  apply IH. intros c' Hc'. apply Hcov. by right.
Qed.

Lemma process_chunk_NoDup chunk w w' :
  NoDup (unit_ids (basic_units (store w))) →
  process_chunk chunk w = Ok w' →
  NoDup (unit_ids (basic_units (store w'))).
Proof.
  intros Hnd (iu & Heq)%process_chunk_basic_units.
  destruct (merge_basic_chunk_spec chunk _ Hnd) as (t & Heq' & Hnd' & _).
  rewrite Heq in Heq'. by injection Heq' as <- _.
Qed.

Lemma process_chunks_NoDup chunks w w' :
  NoDup (unit_ids (basic_units (store w))) →
  process_chunks chunks w = Ok w' →
  NoDup (unit_ids (basic_units (store w'))).
Proof.
  revert w. induction chunks as [|c rest IH]; intros w Hnd Heq; simpl in Heq.
  - by injection Heq as <-.
  - destruct (process_chunk c w) as [w1|e] eqn:H1; [|done]. simpl in Heq.
    eapply IH; [|done]. by eapply process_chunk_NoDup.
Qed.

Lemma process_chunks_keeps_covered chunk chunks w w' :
  NoDup (unit_ids (basic_units (store w))) →
  process_chunks chunks w = Ok w' →
  covered (basic_units (store w)) chunk →
  covered (basic_units (store w')) chunk.
Proof.
  revert w. induction chunks as [|c rest IH]; intros w Hnd Heq Hcov;
    simpl in Heq.
  - by injection Heq as <-.
  - destruct (process_chunk c w) as [w1|e] eqn:H1; [|done]. simpl in Heq.
    eapply IH; [|done|]; [by eapply process_chunk_NoDup|].
    apply process_chunk_basic_units in H1 as (iu & H1).
    by eapply merge_basic_chunk_keeps_covered.
Qed.

Lemma process_chunks_covers chunks w w' :
  NoDup (unit_ids (basic_units (store w))) →
  process_chunks chunks w = Ok w' →
  ∀ c, c ∈ chunks → covered (basic_units (store w')) c.
Proof.
  revert w. induction chunks as [|c rest IH]; intros w Hnd Heq c' Hc';
    [by apply elem_of_nil in Hc'|]. simpl in Heq.
  destruct (process_chunk c w) as [w1|e] eqn:H1; [|done]. simpl in Heq.
  pose proof (process_chunk_NoDup _ _ _ Hnd H1) as Hnd1.
  apply elem_of_cons in Hc' as [->|Hc']; [|by eapply IH].
  eapply process_chunks_keeps_covered; [done..|].
  apply process_chunk_basic_units in H1 as (iu & H1).
  exact (merge_basic_chunk_covers _ _ _ _ Hnd H1).
Qed.

(** Units whose [Einheittyp] is a key of [unit_type_map]. *)
Definition known_type (u : BasicUnit) : Prop :=
  is_Some (unit_type_map !! Einheittyp u).

Lemma submit_unit_ok u s :
  known_type u → ∃ s', submit_unit u s = Ok s'.
Proof.
  intros [tech Htech]. unfold submit_unit, getitem. rewrite Htech. simpl.
  eauto.
Qed.

Lemma submit_units_ok units s :
  (∀ u, u ∈ units → known_type u) → ∃ s', submit_units units s = Ok s'.
Proof.
  revert s. induction units as [|u rest IH]; intros s Hall; [by eexists|].
  simpl. destruct (submit_unit_ok u s) as [s1 ->]; [apply Hall; left|].
  simpl. apply IH. intros v Hv. apply Hall. by right.
Qed.

Lemma process_chunk_ok chunk w :
  NoDup (unit_ids (basic_units (store w))) →
  (∀ u, u ∈ chunk → known_type u) →
  ∃ w', process_chunk chunk w = Ok w'.
Proof.
  intros Hnd Hall. unfold process_chunk.
  destruct (merge_basic_chunk_spec chunk _ Hnd) as (t & -> & _ & _). simpl.
  edestruct submit_units_ok as [s ->]; [|by eexists].
  intros u [Hu|Hu]%elem_of_app; apply list_elem_of_filter in Hu as [_ Hu];
    by apply Hall, unique_elem_of_chunk.
Qed.

Lemma process_chunks_ok chunks w :
  NoDup (unit_ids (basic_units (store w))) →
  (∀ c u, c ∈ chunks → u ∈ c → known_type u) →
  ∃ w', process_chunks chunks w = Ok w'.
Proof.
  revert w. induction chunks as [|c rest IH]; intros w Hnd Hall;
    [by eexists|]. simpl.
  destruct (process_chunk_ok c w Hnd) as [w1 H1]; [intros u; apply Hall; left|].
  rewrite H1. simpl. apply IH; [by eapply process_chunk_NoDup|].
  intros c' u Hc'. apply Hall. by right.
Qed.

(** *** Requests for additional data of a chunk *)

(** The requests collected by the loop over [inserted_and_updated]. *)
Definition pending (rq : Requests) : list AdditionalDataRequested :=
  extended_data rq ++ eeg_data rq ++ kwk_data rq ++ permit_data rq.

(** A request of unit [u] under technology [tech]. *)
Definition request_of (u : BasicUnit) (tech : string)
    (r : AdditionalDataRequested) : Prop :=
  req_EinheitMastrNummer r = uid u ∧ technology r = tech.

Lemma append_request_spec u ref tech kind l t :
  (t ≤ (append_request u ref tech kind (l, t)).2 ≤ t + 1)%Z
  ∧ (∀ r, r ∈ l → r ∈ (append_request u ref tech kind (l, t)).1)
  ∧ ∀ r, r ∈ (append_request u ref tech kind (l, t)).1 →
         r ∈ l
         ∨ (request_of u tech r
            ∧ (t ≤ request_date r
               < (append_request u ref tech kind (l, t)).2)%Z).
Proof.
  unfold append_request. destruct (truthy ref); simpl.
  - split; [lia|]. split; [intros r Hr; apply elem_of_app; by left|].
    intros r [Hr| ->%list_elem_of_singleton]%elem_of_app; [by left|right].
    split; [done|simpl; lia].
  - split; [lia|]. split; [done|]. by left.
Qed.

Lemma submit_unit_spec u s s' tech :
  unit_type_map !! Einheittyp u = Some tech →
  submit_unit u s = Ok s' →
  (now s < now s')%Z
  ∧ (∀ r, r ∈ pending (requests s') →
          r ∈ pending (requests s)
          ∨ (request_of u tech r ∧ (now s ≤ request_date r < now s')%Z))
  ∧ (∀ r, r ∈ requested s' →
          r ∈ requested s
          ∧ ¬ (request_of u tech r ∧ (request_date r < now s)%Z))
  ∧ (∀ r, r ∈ pending (requests s) → r ∈ pending (requests s'))
  ∧ request_dict u (uid u) tech "unit_data" (now s) ∈ pending (requests s').
Proof.
  intros Htech. unfold submit_unit, getitem. rewrite Htech.
  cbv beta iota delta [rbind]. intros [= <-]. cbn [now requests requested].
  destruct (append_request_spec u (EegMastrNummer u) tech "eeg_data"
              (eeg_data (requests s)) (now s + 1)) as (Ht1 & Hk1 & Hn1).
  set (eeg := append_request u (EegMastrNummer u) tech "eeg_data" _) in *.
  destruct (append_request_spec u (KwkMastrNummer u) tech "kwk_data"
              (kwk_data (requests s)) eeg.2) as (Ht2 & Hk2 & Hn2).
  set (kwk := append_request u (KwkMastrNummer u) tech "kwk_data" _) in *.
  destruct (append_request_spec u (GenMastrNummer u) tech "permit_data"
              (permit_data (requests s)) kwk.2) as (Ht3 & Hk3 & Hn3).
  set (permit := append_request u (GenMastrNummer u) tech "permit_data" _) in *.
  unfold pending. cbn [extended_data eeg_data kwk_data permit_data fst snd].
  split; [lia|]. split; [|split; [|split]].
  - intros r. rewrite !elem_of_app, list_elem_of_singleton.
    intros [[Hr| ->]|[Hr|[Hr|Hr]]].
    + left. tauto.
    + right. split; [done|simpl; lia].
    + destruct (Hn1 r Hr) as [?|[? ?]]; [left; tauto|right; split; [done|lia]].
    + destruct (Hn2 r Hr) as [?|[? ?]]; [left; tauto|right; split; [done|lia]].
    + destruct (Hn3 r Hr) as [?|[? ?]]; [left; tauto|right; split; [done|lia]].
  - intros r [Hkeep Hr]%list_elem_of_filter. split; [done|].
    intros [[Hid Htec] Hdate]. apply Hkeep. unfold is_old_entry.
    rewrite !bool_decide_eq_true_2 by done. simpl.
    apply Is_true_true, Z.ltb_lt. lia.
  - intros r. rewrite !elem_of_app. intros [Hr|[Hr|[Hr|Hr]]]; auto 10.
  - rewrite !elem_of_app, list_elem_of_singleton. auto.
Qed.

Lemma submit_units_spec units :
  ∀ s s',
    submit_units units s = Ok s' →
    (now s ≤ now s')%Z
    ∧ (∀ r, r ∈ pending (requests s') →
            r ∈ pending (requests s) ∨ (now s ≤ request_date r < now s')%Z)
    ∧ (∀ r, r ∈ requested s' →
            r ∈ requested s
            ∧ ∀ u tech, u ∈ units →
                unit_type_map !! Einheittyp u = Some tech →
                ¬ (request_of u tech r ∧ (request_date r < now s)%Z))
    ∧ (∀ r, r ∈ pending (requests s) → r ∈ pending (requests s'))
    ∧ ∀ u tech, u ∈ units → unit_type_map !! Einheittyp u = Some tech →
        ∃ t, (now s ≤ t < now s')%Z
             ∧ request_dict u (uid u) tech "unit_data" t ∈ pending (requests s').
Proof.
  induction units as [|u rest IH]; intros s s' Hrun; simpl in Hrun.
  - injection Hrun as <-. split; [lia|]. split; [by left|].
    split; [|split; [done|]].
    + intros r Hr. split; [done|]. by intros u tech ?%elem_of_nil.
    + by intros u tech ?%elem_of_nil.
  - destruct (submit_unit u s) as [s1|e] eqn:H1; [|done].
    cbv beta iota delta [rbind] in Hrun.
    assert (Htech : ∃ tech, unit_type_map !! Einheittyp u = Some tech).
    { revert H1. unfold submit_unit, getitem.
      destruct (unit_type_map !! Einheittyp u); [by eexists|done]. }
    destruct Htech as [tech0 Htech0].
    destruct (submit_unit_spec u s s1 tech0 Htech0 H1)
      as (Hn1 & Hp1 & Hr1 & Hk1 & He1).
    destruct (IH s1 s' Hrun) as (Hn & Hp & Hr & Hk & He).
    split; [lia|]. split; [|split; [|split]].
    + intros r Hin. destruct (Hp r Hin) as [Hin1|?]; [|right; lia].
      destruct (Hp1 r Hin1) as [?|[_ ?]]; [by left|right; lia].
    + intros r Hin. destruct (Hr r Hin) as [Hin1 Hrest].
      destruct (Hr1 r Hin1) as [Hin0 Hu]. split; [done|].
      intros v tech [->|Hv]%elem_of_cons Htech.
      * assert (tech = tech0) as -> by congruence. done.
      * intros [Hreq Hdate]. eapply Hrest; [done..|]. split; [done|lia].
    + auto.
    + intros v tech [->|Hv]%elem_of_cons Htech.
      * assert (tech = tech0) as -> by congruence.
        exists (now s). split; [lia|]. by apply Hk.
      * destruct (He v tech Hv Htech) as (t & Ht & Hin).
        exists t. split; [lia|done].
Qed.

(** After a chunk, every request of a unit that the chunk inserted or
    updated is a request of this chunk: the requests stored before it for
    the unit and its technology are gone, and the request for the unit
    data is there.  All stored requests stay older than the clock. *)
Lemma process_chunk_requests chunk w w' :
  (∀ r, r ∈ additional_data_requested (store w) →
        (request_date r < clock w)%Z) →
  process_chunk chunk w = Ok w' →
  (clock w ≤ clock w')%Z
  ∧ (∀ r, r ∈ additional_data_requested (store w') →
          (request_date r < clock w')%Z)
  ∧ ∃ iu,
      merge_basic_chunk chunk (basic_units (store w))
      = Ok (basic_units (store w'), iu)
      ∧ ∀ u tech, u ∈ iu → unit_type_map !! Einheittyp u = Some tech →
          (∀ r, r ∈ additional_data_requested (store w') →
                request_of u tech r →
                (clock w ≤ request_date r)%Z)
          ∧ ∃ t, (clock w ≤ t)%Z
                 ∧ request_dict u (uid u) tech "unit_data" t
                   ∈ additional_data_requested (store w').
Proof.
  intros Hold. unfold process_chunk.
  destruct (merge_basic_chunk chunk (basic_units (store w))) as [[tbl iu]|e];
    [|done]. cbv beta iota delta [rbind].
  destruct (submit_units iu _) as [s|e] eqn:Hsub; [|done].
  cbv beta iota delta [rbind]. intros [= <-]. simpl.
  apply submit_units_spec in Hsub as (Hn & Hp & Hr & _ & He). simpl in *.
  assert (Hall : ∀ r, r ∈ requested s ++ extended_data (requests s)
                        ++ eeg_data (requests s) ++ kwk_data (requests s)
                        ++ permit_data (requests s) ↔
                      r ∈ requested s ∨ r ∈ pending (requests s)).
  { intros r. unfold pending. by rewrite !elem_of_app. }
  split; [done|]. split.
  - intros r [Hin|Hin]%Hall.
    + destruct (Hr r Hin) as [Hin0 _]. specialize (Hold r Hin0). lia.
    + destruct (Hp r Hin) as [?%elem_of_nil|?]; [done|lia].
  - exists iu. split; [done|]. intros u tech Hu Htech. split.
    + intros r [Hin|Hin]%Hall Hreq.
      * destruct (Hr r Hin) as [Hin0 Hgone]. exfalso.
        eapply Hgone; [done..|]. split; [done|by apply Hold].
      * destruct (Hp r Hin) as [?%elem_of_nil|?]; [done|lia].
    + destruct (He u tech Hu Htech) as (t & Ht & Hin).
      exists t. split; [lia|]. apply Hall. by right.
Qed.

Lemma process_chunks_twice chunks w :
  NoDup (unit_ids (basic_units (store w))) →
  (∀ c u, c ∈ chunks → u ∈ c → known_type u) →
  ∃ w1,
    process_chunks chunks w = Ok w1
    ∧ NoDup (unit_ids (basic_units (store w1)))
    ∧ ∀ t, process_chunks chunks {| store := store w1; clock := t |}
           = Ok {| store := store w1; clock := t |}.
Proof.
  intros Hnd Hall.
  destruct (process_chunks_ok chunks w Hnd Hall) as [w1 H1].
  pose proof (process_chunks_NoDup _ _ _ Hnd H1) as Hnd1.
  exists w1. split; [done|split; [done|]]. intros t.
  apply process_chunks_covered; [done|]. simpl.
  exact (process_chunks_covers _ _ _ Hnd H1).
Qed.

Lemma process_chunks_app chunks1 chunks2 w :
  process_chunks (chunks1 ++ chunks2) w
  = let* w' := process_chunks chunks1 w in process_chunks chunks2 w'.
Proof.
  revert w. induction chunks1 as [|c rest IH]; intros w; [done|]. simpl.
  destruct (process_chunk c w) as [w1|e]; [apply IH|done].
Qed.

Section BackfillTwice.

Variable basic_unit_data : option string → Z → option Z → list (list BasicUnit).

(** The chunks that the client yields along a plan, in the order in which
    the retrieval processes them. *)
Definition chunks_of_plan (plan : list (option string * option Z)) (limit : Z)
  : list (list BasicUnit) :=
  plan ≫= λ p, basic_unit_data p.1 limit p.2.

Lemma backfill_plan_chunks plan limit :
  ∀ w calls,
    backfill_plan basic_unit_data plan limit w calls
    = let* w' := process_chunks (chunks_of_plan plan limit) w in
      Ok (w', calls ++ ((λ p, {| call_technology := p.1; call_limit := limit;
                                 call_date_from := p.2 |}) <$> plan)).
Proof.
  induction plan as [|[tech date] rest IH]; intros w calls.
  - simpl. by rewrite app_nil_r.
  - change (chunks_of_plan ((tech, date) :: rest) limit)
      with (basic_unit_data tech limit date ++ chunks_of_plan rest limit).
    rewrite process_chunks_app. cbn [backfill_plan].
    destruct (process_chunks (basic_unit_data tech limit date) w)
      as [w1|e]; [|done]. cbv beta iota delta [rbind]. rewrite IH.
    destruct (process_chunks _ w1) as [w2|e]; [|done].
    cbv beta iota delta [rbind]. by rewrite <- app_assoc.
Qed.

Lemma fetch_plan_explicit technology date :
  date ≠ DateLatest → technology ≠ TechnologyOther →
  ∃ plan, ∀ tbl', fetch_plan technology date tbl' = Ok plan.
Proof.
  intros Hdate Htech. unfold fetch_plan.
  destruct technology as [|tech|techs|]; [| | |done];
    destruct date as [| |t]; try done; simpl; by eexists.
Qed.

(** C8. A run of the chunk loop of [backfill_basic] over chunks whose unit
    types are known, from a store with unique unit ids, succeeds; running
    it again over the same chunks, at any later clock, succeeds and leaves
    the store exactly as the first run left it: no basic unit and no
    request for additional data is added, changed or deleted, and the unit
    ids are still unique.  So does [backfill_basic] itself, called twice
    for the same technologies and the same date (not ["latest"]) with a
    client that yields the same chunks.  Where a chunk does insert or
    update a unit, the requests stored before for the unit and its
    technology are deleted and only the requests submitted with this chunk
    are stored for them. *)
Theorem C8_backfill_twice_same_store (chunks : list (list BasicUnit))
    (w : World) :
  NoDup (unit_ids (basic_units (store w))) →
  (∀ c u, c ∈ chunks → u ∈ c → known_type u) →
  (∃ w1,
     process_chunks chunks w = Ok w1
     ∧ NoDup (unit_ids (basic_units (store w1)))
     ∧ ∀ t, process_chunks chunks {| store := store w1; clock := t |}
            = Ok {| store := store w1; clock := t |})
  ∧ (∀ technology date limit,
       date ≠ DateLatest → technology ≠ TechnologyOther →
       (∀ tech l d c u, c ∈ basic_unit_data tech l d → u ∈ c → known_type u) →
       ∃ w1 calls,
         backfill_basic basic_unit_data technology date limit w = Ok (w1, calls)
         ∧ ∀ t, backfill_basic basic_unit_data technology date limit
                  {| store := store w1; clock := t |}
                = Ok ({| store := store w1; clock := t |}, calls))
  ∧ ∀ chunk w',
      (∀ r, r ∈ additional_data_requested (store w) →
            (request_date r < clock w)%Z) →
      process_chunk chunk w = Ok w' →
      (∀ r, r ∈ additional_data_requested (store w') →
            (request_date r < clock w')%Z)
      ∧ ∃ iu,
          merge_basic_chunk chunk (basic_units (store w))
          = Ok (basic_units (store w'), iu)
          ∧ ∀ u tech, u ∈ iu → unit_type_map !! Einheittyp u = Some tech →
              (∀ r, r ∈ additional_data_requested (store w') →
                    request_of u tech r →
                    (clock w ≤ request_date r)%Z)
              ∧ ∃ t, (clock w ≤ t)%Z
                     ∧ request_dict u (uid u) tech "unit_data" t
                       ∈ additional_data_requested (store w').
Proof.
  intros Hnd Hall. split; [by apply process_chunks_twice|]. split.
  - intros technology date limit Hdate Htech Hremote.
    destruct (fetch_plan_explicit technology date Hdate Htech) as [plan Hplan].
    destruct (process_chunks_twice
                (chunks_of_plan plan (backfill_limit limit)) w Hnd)
      as (w1 & H1 & _ & H2).
    { intros c u (p & Hc & _)%list_elem_of_bind. by eapply Hremote. }
    exists w1. eexists. unfold backfill_basic.
    rewrite !Hplan. cbv beta iota delta [rbind].
    rewrite backfill_plan_chunks, H1. cbv beta iota delta [rbind].
    split; [done|]. intros t. rewrite Hplan. cbv beta iota delta [rbind].
    by rewrite backfill_plan_chunks, H2.
  - intros chunk w' Hold Hrun.
    by destruct (process_chunk_requests chunk w w' Hold Hrun) as (_ & ? & ?).
Qed.

End BackfillTwice.

(** ** The dates of [date="latest"] *)









Lemma zip_fmap_same {A B C} (f : A → B) (g : A → C) (l : list A) :
  zip (f <$> l) (g <$> l) = (λ x, (f x, g x)) <$> l.
Proof. induction l as [|x l IH]; [done|]. simpl. f_equal. exact IH. Qed.



Section BackfillCalls.

Variable basic_unit_data : option string → Z → option Z → list (list BasicUnit).

Hypothesis remote_known :
  ∀ tech l date c u, c ∈ basic_unit_data tech l date → u ∈ c → known_type u.



End BackfillCalls.

(** ** Retrieving additional data *)


Section Retrieval.

Variable RawDat : Type.
Variable _additional_data :
  nat → string → list string → string → list RawDat * list string.
Variable _flatten_dict : list RawDat → list (gmap string string).
Variable primary_key : string → string.

Local Abbreviation iteration :=
  (drain_iteration RawDat _additional_data _flatten_dict primary_key).
Local Abbreviation merge_data := (merge_unit_data primary_key).
Local Abbreviation loop :=
  (drain_loop RawDat _additional_data _flatten_dict primary_key).
Local Abbreviation retrieve :=
  (retrieve_additional_data RawDat _additional_data _flatten_dict primary_key).


(** The running total of a log: the ids selected by its iterations. *)
Definition consumed (log : list Iteration) : Z :=
  foldr (λ it acc, (Z.of_nat (length (selected it)) + acc)%Z) 0%Z log.

Lemma consumed_app l1 l2 : consumed (l1 ++ l2) = (consumed l1 + consumed l2)%Z.
Proof. induction l1 as [|it l1 IH]; simpl; lia. Qed.

Lemma consumed_nonneg log : (0 ≤ consumed log)%Z.
Proof. induction log as [|it log IH]; simpl; lia. Qed.

Lemma iteration_log tech kind c d d' it :
  iteration tech kind c d = Ok (d', it) →
  drain_log d' = drain_log d ++ [it]
  ∧ (Z.of_nat (length (selected it)) ≤ c)%Z
  ∧ (selected it = [] → number_units_merged it = 0).
Proof.
  unfold drain_iteration, requested_chunk.
  destruct (Z.ltb_spec c 0); [done|]. cbv beta iota delta [rbind].
  set (chunk := take _ _).
  assert (Hlen : (Z.of_nat (length (additional_data_id <$> chunk)) ≤ c)%Z).
  { rewrite length_fmap. unfold chunk. rewrite length_take. lia. }
  destruct (additional_data_id <$> chunk) as [|i rest] eqn:Hids.
  - intros [= <- <-]. simpl. split; [done|split; [lia|done]].
  - destruct (getitem download_functions kind) as [fn|e]; [|done].
    cbv beta iota delta [rbind].
    destruct (merge_unit_data _ _ _ _ _) as [dtl|e]; [|done].
    cbv beta iota delta [rbind]. intros [= <- <-]. simpl.
    split; [done|split; [done|done]].
Qed.

(** With enough fuel the loop ends: every iteration that does not end it
    adds at least one to [units_queried]. *)
Lemma loop_ends tech kind limit c fuel :
  ∀ uq d, (Z.to_nat (limit - uq) < fuel)%nat →
          loop fuel tech kind (Some limit) c uq d ≠ OutOfFuel.
Proof.
  induction fuel as [|fuel IH]; intros uq d Hfuel; [lia|]. simpl.
  destruct (Z.ltb_spec uq limit) as [Hlt|Hge]; [|done].
  destruct (iteration tech kind c d) as [[d' it]|e] eqn:Hit; [|done].
  case_bool_decide as Hmerged; [done|].
  apply iteration_log in Hit as (_ & _ & Hsel).
  apply IH. destruct (selected it); [by destruct Hmerged; apply Hsel|].
  simpl length. lia.
Qed.

(** What a finished run of the loop has logged. *)
Lemma loop_finished tech kind limit c fuel :
  ∀ uq d uq' d',
    loop fuel tech kind (Some limit) c uq d = Finished uq' d' →
    ∃ its,
      drain_log d' = drain_log d ++ its
      ∧ uq' = (uq + consumed its)%Z
      ∧ Forall (λ it, (Z.of_nat (length (selected it)) ≤ c)%Z
                      ∧ (selected it = [] → number_units_merged it = 0)) its
      ∧ (∀ l1 it l2, its = l1 ++ it :: l2 →
           (uq + consumed l1 < limit)%Z
           ∧ (l2 ≠ [] → number_units_merged it ≠ 0))
      ∧ ((its = [] ∧ (limit ≤ uq)%Z)
         ∨ (∃ l1 it, its = l1 ++ [it]
              ∧ (number_units_merged it = 0 ∨ (limit ≤ uq')%Z))).
Proof.
  induction fuel as [|fuel IH]; intros uq d uq' d' Hrun; [done|].
  simpl in Hrun. destruct (Z.ltb_spec uq limit) as [Hlt|Hge].
  - destruct (iteration tech kind c d) as [[d1 it]|e] eqn:Hit; [|done].
    apply iteration_log in Hit as (Hlog & Hlen & Hsel).
    case_bool_decide as Hmerged.
    + injection Hrun as <- <-. exists [it]. simpl.
      split; [done|split; [lia|split; [by constructor|split]]].
      * intros l1 it' l2 Heq. destruct l1 as [|? [|]]; simplify_eq/=.
        split; [lia|done].
      * right. exists [], it. eauto.
    + apply IH in Hrun as (its & Hlog' & Huq & Hall & Hsteps & Hend).
      exists (it :: its). rewrite Hlog', Hlog, <- app_assoc. simpl.
      split; [done|split; [lia|split; [by constructor|split]]].
      * intros l1 it' l2 Heq. destruct l1 as [|it0 l1]; simplify_eq/=.
        -- split; [lia|done].
        -- destruct (Hsteps l1 it' l2 eq_refl) as [Hlt' Hm]. split; [lia|done].
      * right. destruct Hend as [[-> Hge]|(l1 & it' & -> & Hcase)].
        -- exists [], it. split; [done|]. right. simpl in *. lia.
        -- exists (it :: l1), it'. split; [done|]. done.
  - injection Hrun as <- <-. exists []. simpl. rewrite app_nil_r.
    split; [done|split; [lia|split; [constructor|split]]].
    + intros l1 it l2 Heq. by destruct l1.
    + by left.
Qed.

Lemma clamp_chunksize_min limit chunksize :
  limit ≠ 0%Z → clamp_chunksize (Some limit) chunksize = Z.min chunksize limit.
Proof.
  intros Hne. unfold clamp_chunksize. rewrite bool_decide_eq_true_2 by done.
  destruct (Z.gtb_spec chunksize limit); lia.
Qed.

(** C7 as the code has it. With a numeric limit the loop of the retrieval
    ends (more fuel than the limit is enough).  When it ends normally,
    [units_queried] is the sum over the iterations of the number of ids
    selected; an iteration is only started while that sum is below the
    limit, it selects at most [chunksize] ids, the chunk size being
    clamped to a non-zero limit, and it is followed by another iteration
    only if it merged a unit; so the last iteration merged no unit (as
    when it selects no request or nothing is fetched) or reached the
    limit.  The limit bounds the sum only up to the last chunk: the sum
    stays below the limit plus the chunk size. *)
Theorem C7_drain_progress (tech kind : string) (limit chunksize : Z)
    (fuel : nat) (st : Store) :
  (Z.to_nat limit < fuel)%nat →
  match retrieve fuel tech kind (Some limit) chunksize st with
  | OutOfFuel => False
  | Raised _ _ => True
  | Finished units_queried d =>
      let c := clamp_chunksize (Some limit) chunksize in
      units_queried = consumed (drain_log d)
      ∧ (∀ l1 it l2, drain_log d = l1 ++ it :: l2 →
           (consumed l1 < limit)%Z
           ∧ (Z.of_nat (length (selected it)) ≤ c)%Z
           ∧ (selected it = [] → number_units_merged it = 0)
           ∧ (l2 ≠ [] → number_units_merged it ≠ 0))
      ∧ ((drain_log d = [] ∧ (limit ≤ 0)%Z)
         ∨ (∃ l1 it, drain_log d = l1 ++ [it]
              ∧ (number_units_merged it = 0 ∨ (limit ≤ units_queried)%Z)))
      ∧ (limit ≠ 0%Z → c = Z.min chunksize limit)
      ∧ (units_queried ≤ Z.max 0 (limit + c - 1))%Z
  end.
Proof.
  intros Hfuel. unfold retrieve_additional_data.
  set (c := clamp_chunksize (Some limit) chunksize).
  set (d0 := {| drain_store := st; drain_log := [] |}).
  destruct (loop fuel tech kind (Some limit) c 0 d0) as [uq d|e d|] eqn:Hrun.
  - apply loop_finished in Hrun as (its & Hlog & Huq & Hall & Hsteps & Hend).
    simpl in Hlog. rewrite Hlog.
    split; [lia|split; [|split; [|split]]].
    + intros l1 it l2 Heq. destruct (Hsteps l1 it l2 Heq) as [Hlt Hm].
      rewrite Forall_forall in Hall. destruct (Hall it) as [Hlen Hsel].
      { rewrite Heq. apply elem_of_app. right. left. }
      repeat split; [lia|done..].
    + destruct Hend as [[-> Hge]|(l1 & it & -> & Hcase)]; [left|right].
      * split; [done|lia].
      * exists l1, it. split; [done|]. done.
    + apply clamp_chunksize_min.
    + destruct Hend as [[-> Hge]|(l1 & it & -> & Hcase)]; [simpl in *; lia|].
      destruct (Hsteps l1 it [] eq_refl) as [Hlt _].
      rewrite Forall_forall in Hall. destruct (Hall it) as [Hlen _].
      { apply elem_of_app. right. left. }
      rewrite consumed_app in Huq. simpl in Huq.
      pose proof (consumed_nonneg l1).
      clearbody c. lia.
  - done.
  - by eapply loop_ends; [|done]; rewrite Z.sub_0_r.
Qed.



End Retrieval.

(** ** The theorems at example data *)

Import Examples.


Lemma C2_dedup_keeps_last_occurrence_witness :
  ∃ u l1 l2,
    [wind_unit "U1" 5 "first"; solar_unit "U2" 1; wind_unit "U1" 3 "second"]
    = l1 ++ (u :: l2)
    ∧ uid u = "U1"
    ∧ ("U1" ∉ unit_ids l2)
    ∧ filter (λ r, uid r = "U1")
        (basic_units_chunk_unique
           [wind_unit "U1" 5 "first"; solar_unit "U2" 1;
            wind_unit "U1" 3 "second"])
      = [u].
Proof.
  apply (C2_dedup_keeps_last_occurrence
           [wind_unit "U1" 5 "first"; solar_unit "U2" 1;
            wind_unit "U1" 3 "second"] "U1").
  compute_done.
Defined.

(** The unit that survives in the example is the one that occurs last. *)
Example dedup_last_payload :
  basic_units_chunk_unique
    [wind_unit "U1" 5 "first"; solar_unit "U2" 1; wind_unit "U1" 3 "second"]
  = [solar_unit "U2" 1; wind_unit "U1" 3 "second"].
Proof. reflexivity. Qed.



(** C7, counterexample. Six requests, limit 5, chunk size 3, a client that
    finds every unit: the retrieval consumes six requests. *)
Lemma C7_limit_exceeded :
  match retrieve_additional_data _ client_all flat unit_key 10 "wind"
          "unit_data" (Some 5%Z) 3
          (requests_store ["SEE1"; "SEE2"; "SEE3"; "SEE4"; "SEE5"; "SEE6"]) with
  | Finished units_queried d =>
      units_queried = 6%Z
      ∧ (5 < units_queried)%Z
      ∧ additional_data_requested (drain_store d) = []
  | _ => False
  end.
Proof. vm_compute. done. Qed.

Lemma C7_drain_progress_witness :
  match retrieve_additional_data _ client_all flat unit_key 10 "wind"
          "unit_data" (Some 5%Z) 3
          (requests_store ["SEE1"; "SEE2"; "SEE3"; "SEE4"; "SEE5"; "SEE6"]) with
  | OutOfFuel => False
  | Raised _ _ => True
  | Finished units_queried d =>
      let c := clamp_chunksize (Some 5%Z) 3 in
      units_queried = consumed (drain_log d)
      ∧ (∀ l1 it l2, drain_log d = l1 ++ it :: l2 →
           (consumed l1 < 5)%Z
           ∧ (Z.of_nat (length (selected it)) ≤ c)%Z
           ∧ (selected it = [] → number_units_merged it = 0)
           ∧ (l2 ≠ [] → number_units_merged it ≠ 0))
      ∧ ((drain_log d = [] ∧ (5 ≤ 0)%Z)
         ∨ (∃ l1 it, drain_log d = l1 ++ [it]
              ∧ (number_units_merged it = 0 ∨ (5 ≤ units_queried)%Z)))
      ∧ (5%Z ≠ 0%Z → c = Z.min 3 5)
      ∧ (units_queried ≤ Z.max 0 (5 + c - 1))%Z
  end.
Proof.
  apply (C7_drain_progress _ client_all flat unit_key "wind" "unit_data" 5 3 10
           (requests_store ["SEE1"; "SEE2"; "SEE3"; "SEE4"; "SEE5"; "SEE6"])).
  vm_compute. lia.
Defined.

Lemma C8_backfill_twice_same_store_witness :
  ∃ w1,
    process_chunks
      [[wind_unit "A" 5 "x"; wind_unit "A" 3 "y"]; [wind_unit "A" 4 "z"]]
      {| store := store_of [solar_unit "B" 1]; clock := 100 |} = Ok w1
    ∧ NoDup (unit_ids (basic_units (store w1)))
    ∧ ∀ t, process_chunks
             [[wind_unit "A" 5 "x"; wind_unit "A" 3 "y"]; [wind_unit "A" 4 "z"]]
             {| store := store w1; clock := t |}
           = Ok {| store := store w1; clock := t |}.
Proof.
  apply (λ H1 H2, proj1 (C8_backfill_twice_same_store no_basic_units
           [[wind_unit "A" 5 "x"; wind_unit "A" 3 "y"]; [wind_unit "A" 4 "z"]]
           {| store := store_of [solar_unit "B" 1]; clock := 100 |} H1 H2)).
  - compute_done.
  - intros c u Hc Hu.
    repeat (apply elem_of_cons in Hc as [->|Hc]);
      [..|by apply elem_of_nil in Hc];
      repeat (apply elem_of_cons in Hu as [->|Hu]);
      try (by apply elem_of_nil in Hu); by exists "wind".
Defined.


End SyncProofs.

(** * Properties of the bulk loader *)

Module BulkProofs.
Import Bulk.

(** ** Values and columns *)






(** ** The retry loop of a write *)






(** ** Columns added during a run *)

Definition outcome_loader (o : outcome) : Loader :=
  match o with
  | Done l | Raised _ l | OutOfFuel l => l
  end.






Section ConvertProofs.

Variable tablename_mapping : gmap string TableInfo.


End ConvertProofs.



(** ** Rows are only ever appended *)

(** Every table of [db] is a table of [db'] with the same rows first. *)
Definition keeps_rows (db db' : gmap string Table) : Prop :=
  ∀ name t, db !! name = Some t →
            ∃ t', db' !! name = Some t' ∧ rows t `prefix_of` rows t'.

Lemma keeps_rows_refl db : keeps_rows db db.
Proof. intros name t Ht. by exists t. Qed.

Lemma keeps_rows_trans db1 db2 db3 :
  keeps_rows db1 db2 → keeps_rows db2 db3 → keeps_rows db1 db3.
Proof.
  intros H12 H23 name t Ht.
  destruct (H12 name t Ht) as (t2 & Ht2 & Hp2).
  destruct (H23 name t2 Ht2) as (t3 & Ht3 & Hp3).
  exists t3. split; [done|by etrans].
Qed.

Lemma keeps_rows_insert db name t t' :
  db !! name = Some t → rows t `prefix_of` rows t' →
  keeps_rows db (<[name := t']> db).
Proof.
  intros Ht Hp n t0 Hn. destruct (decide (name = n)) as [->|Hne].
  - rewrite lookup_insert_eq. simplify_eq. by exists t'.
  - rewrite lookup_insert_ne by done. by exists t0.
Qed.

Lemma to_sql_keeps_rows df name db db' :
  to_sql df name db = inl db' → keeps_rows db db'.
Proof.
  unfold to_sql. destruct (db !! name) as [t|] eqn:Ht.
  - destruct (list_find _ _) as [[? ?]|]; [done|].
    destruct (wrong_entry _ _); [done|]. intros [= <-].
    eapply keeps_rows_insert; [done|]. simpl. by apply prefix_app_r.
  - intros [= <-] n t0 Hn. rewrite lookup_insert_ne by congruence.
    by exists t0.
Qed.

Lemma write_loop_keeps_rows fuel df file_name name :
  ∀ continueloop l,
    keeps_rows (database l)
      (database (outcome_loader
                   (write_loop fuel df file_name name continueloop l))).
Proof.
  induction fuel as [|fuel IH]; intros continueloop l;
    [apply keeps_rows_refl|]. simpl.
  destruct (continueloop && _); [|apply keeps_rows_refl].
  destruct (to_sql df name (database l)) as [db'|[c|v]] eqn:Hsql.
  - eapply keeps_rows_trans; [by eapply to_sql_keeps_rows|].
    apply (IH false {| database := db';
                       events := events l
                                   ++ [Appended name (length (df_rows df))] |}).
  - unfold add_missing_column_to_table, alter_table_add.
    destruct (database l !! name) as [t|] eqn:Ht; [|apply keeps_rows_refl].
    case_bool_decide; [apply keeps_rows_refl|].
    eapply keeps_rows_trans;
      [|apply (IH continueloop
                 {| database :=
                      <[name := {| columns := columns t ++ [(c, ColText)];
                                   rows := rows t |}]> (database l);
                    events := events l ++ [ColumnAdded name c] |})].
    simpl. by eapply keeps_rows_insert.
  - apply (IH continueloop {| database := database l;
                              events := events l ++ [EntryReported v] |}).
Qed.

(** No run of the loader removes a row: whatever the registry, the files
    and the tables, every table keeps its rows, in front of the rows that
    the run appends. *)
Lemma convert_keeps_rows (tablename_mapping : gmap string TableInfo) fuel
    include_tables entries :
  ∀ index l,
    keeps_rows (database l)
      (database (outcome_loader
                   (convert_entries tablename_mapping fuel include_tables
                      entries index l))).
Proof.
  induction entries as [|[file_name df] rest IH]; intros index l;
    [apply keeps_rows_refl|]. simpl.
  destruct (getitem tablename_mapping (xml_tablename_of file_name))
    as [info|e] eqn:Hinfo; [|apply keeps_rows_refl].
  destruct (_ && _); [|by apply IH].
  destruct (if is_first_file file_name then _ else _) as [i|e];
    [|apply keeps_rows_refl].
  unfold add_table_to_sqlite_database. rewrite Hinfo.
  match goal with
  | |- context [write_loop ?f ?d ?fn ?n ?b ?l0] =>
      pose proof (write_loop_keeps_rows f d fn n b l0) as Hloop;
      destruct (write_loop f d fn n b l0) as [l'|e l'|l']
  end; [|done..].
  eapply keeps_rows_trans; [exact Hloop|apply IH].
Qed.

(** A write that fails on a value fails on it for ever: the frame that the
    loop writes again is the frame that failed. *)
Lemma write_loop_wrong_entry df file_name name v db :
  file_name ≠ "Einheitentypen.xml" →
  to_sql df name db = inr (DataError v) →
  ∀ fuel evs,
    write_loop fuel df file_name name true {| database := db; events := evs |}
    = OutOfFuel {| database := db;
                   events := evs ++ replicate fuel (EntryReported v) |}.
Proof.
  intros Hfile Hsql. induction fuel as [|fuel IH]; intros evs.
  - simpl. by rewrite app_nil_r.
  - cbn [write_loop database events].
    rewrite bool_decide_eq_true_2 by done. cbn [andb].
    rewrite Hsql, IH. by rewrite <- app_assoc.
Qed.

(** ** The loader at example data *)

Import Examples.

Example first_and_second_file :
  is_first_file "Solar_1.xml" = true ∧ is_first_file "Solar_2.xml" = false
  ∧ is_first_file "Einheitentypen.xml" = true
  ∧ xml_tablename_of "Solar_1.xml" = "solar".
Proof. done. Qed.

(** C4, at the failing input. Into an empty table the files [Solar_1.xml]
    with 20 rows and [Solar_2.xml] with 15 rows leave 35 rows, in two
    appends.  Into a table that holds a row, the file [Solar_1.xml] with 20
    rows leaves 21 rows, the old row first: the DELETE statement is built
    and never executed, the table is not cleared.  No run of the loader
    clears a table: all rows of every table are still there afterwards. *)
Theorem C4_first_file_does_not_clear :
  match convert_mastr_xml_to_sqlite solar_mapping 3
          [("Solar_1.xml", solar_frame 20); ("Solar_2.xml", solar_frame 15)]
          ["solar"] {[ "solar" := id_table ]} with
  | Done l =>
      length ∘ rows <$> database l !! "solar" = Some 35
      ∧ events l = [Appended "solar" 20; Appended "solar" 15]
  | _ => False
  end
  ∧ match convert_mastr_xml_to_sqlite solar_mapping 3
            [("Solar_1.xml", solar_frame 20)] ["solar"]
            {[ "solar" := old_solar_table ]} with
    | Done l =>
        rows <$> database l !! "solar"
        = Some ([("Id", Some "old")] :: written (solar_frame 20))
        ∧ length ∘ rows <$> database l !! "solar" = Some 21
        ∧ events l = [Appended "solar" 20]
    | _ => False
    end
  ∧ ∀ tablename_mapping fuel entries include_tables db,
      keeps_rows db
        (database (outcome_loader
                     (convert_mastr_xml_to_sqlite tablename_mapping fuel
                        entries include_tables db))).
Proof.
  split; [by vm_compute|]. split; [by vm_compute|].
  intros tablename_mapping fuel entries include_tables db.
  apply (convert_keeps_rows tablename_mapping fuel include_tables entries None
           {| database := db; events := [] |}).
Qed.

(** C6, at the failing input. A frame with the value ["abc"] for an
    integer column: every attempt to write it fails on that value, the
    frame without the value is computed and dropped, and the same frame is
    written again; the loop never ends, whatever the number of iterations
    it is given.  The frame without the value would have been written, the
    other rows as they are. *)
Theorem C6_wrong_entry_retried_forever (fuel : nat) (evs : list Event) :
  write_loop fuel power_frame "Solar_1.xml" "solar" true
    {| database := {[ "solar" := power_table ]}; events := evs |}
  = OutOfFuel {| database := {[ "solar" := power_table ]};
                 events := evs ++ replicate fuel (EntryReported "abc") |}
  ∧ to_sql power_frame "solar" {[ "solar" := power_table ]}
    = inr (DataError "abc")
  ∧ match to_sql (df_replace "abc" power_frame) "solar"
            {[ "solar" := power_table ]} with
    | inl db =>
        rows <$> db !! "solar"
        = Some [[("Leistung", Some "12")]; [("Leistung", None)];
                [("Leistung", Some "7")]]
    | inr _ => False
    end.
Proof.
  assert (Hsql : to_sql power_frame "solar" {[ "solar" := power_table ]}
                 = inr (DataError "abc")) by (vm_compute; reflexivity).
  split; [|split; [done|by vm_compute]].
  by apply (write_loop_wrong_entry power_frame "Solar_1.xml" "solar" "abc").
Qed.


End BulkProofs.

(** * Further properties of the incremental mirror *)

Module SyncMore.
Import Sync SyncProofs.

(** ** [chunks] *)

Lemma range_from_0_nil step : 0 < step → range_from_0 0 step = [].
Proof.
  intros Hstep. unfold range_from_0.
  replace ((0 + step - 1) / step) with 0; [done|].
  symmetry. apply Nat.div_small. lia.
Qed.

Lemma range_from_0_step stop step :
  0 < step → 0 < stop →
  range_from_0 stop step
  = 0 :: ((λ i, step + i) <$> range_from_0 (stop - step) step).
Proof.
  intros Hstep Hstop. unfold range_from_0.
  assert (Hdiv : (stop + step - 1) / step
                 = S ((stop - step + step - 1) / step)).
  { destruct (Nat.le_gt_cases step stop) as [Hle|Hgt].
    - replace (stop + step - 1) with (1 * step + (stop - step + step - 1))
        by lia.
      rewrite Nat.div_add_l by lia. lia.
    - replace (stop - step) with 0 by lia.
      replace ((0 + step - 1) / step) with 0
        by (symmetry; apply Nat.div_small; lia).
      replace (stop + step - 1) with (1 * step + (stop - 1)) by lia.
      rewrite Nat.div_add_l by lia. rewrite Nat.div_small by lia. lia. }
  rewrite Hdiv. simpl. f_equal. rewrite <- list_fmap_compose.
  rewrite <- fmap_S_seq, <- list_fmap_compose. apply list_fmap_ext.
  intros _ k _. simpl. lia.
Qed.

(** The chunks by recursion: the first [n] elements, then the chunks of
    the rest. *)
Lemma chunks_cons {A} (x : A) (lst : list A) (n : Z) :
  (0 < n)%Z →
  chunks (x :: lst) n
  = match chunks (drop (Z.to_nat n) (x :: lst)) n with
    | Yields rest => Yields (take (Z.to_nat n) (x :: lst) :: rest)
    | ValueError => ValueError
    end.
Proof.
  intros Hn. unfold chunks. rewrite bool_decide_eq_false_2 by lia.
  destruct (Z.ltb_spec n 0) as [|_]; [lia|].
  f_equal. rewrite range_from_0_step by (simpl; lia).
  rewrite fmap_cons, length_drop. f_equal.
  rewrite <- list_fmap_compose. apply list_fmap_ext. intros _ i _. simpl.
  by rewrite drop_drop.
Qed.

Lemma chunks_nil {A} (n : Z) : (0 < n)%Z → chunks (@nil A) n = Yields [].
Proof.
  intros Hn. unfold chunks. rewrite bool_decide_eq_false_2 by lia.
  destruct (Z.ltb_spec n 0) as [|_]; [lia|].
  by rewrite range_from_0_nil by (simpl; lia).
Qed.

Lemma chunks_positive {A} (n : Z) (k : nat) :
  (0 < n)%Z →
  ∀ lst : list A, length lst ≤ k →
    ∃ cs, chunks lst n = Yields cs
          ∧ concat cs = lst
          ∧ Forall (λ c, c ≠ [] ∧ length c ≤ Z.to_nat n) cs
          ∧ ∀ l1 c l2, cs = l1 ++ c :: l2 → l2 ≠ [] →
                       length c = Z.to_nat n.
Proof.
  intros Hn. induction k as [|k IH]; intros lst Hlen.
  - destruct lst; [|simpl in Hlen; lia]. exists []. rewrite chunks_nil by done.
    repeat split; [constructor|]. intros l1 c l2 Heq. by destruct l1.
  - destruct lst as [|x lst].
    { exists []. rewrite chunks_nil by done.
      repeat split; [constructor|]. intros l1 c l2 Heq. by destruct l1. }
    destruct (IH (drop (Z.to_nat n) (x :: lst))) as (rest & Hrest & Hcat & Hall & Hfull).
    { rewrite length_drop. simpl in *. lia. }
    exists (take (Z.to_nat n) (x :: lst) :: rest).
    rewrite chunks_cons, Hrest by done. split; [done|]. split; [|split].
    + simpl. rewrite Hcat. apply take_drop.
    + constructor; [|done]. rewrite length_take. split; [|lia].
      destruct (Z.to_nat n) eqn:Hz; [lia|done].
    + intros l1 c l2 Heq Hl2. destruct l1 as [|c' l1]; simplify_eq/=.
      * rewrite length_take. apply Nat.min_l.
        destruct (Nat.le_gt_cases (Z.to_nat n) (length (x :: lst)))
          as [Hle|Hgt]; [done|].
        rewrite drop_ge in Hrest by lia. rewrite chunks_nil in Hrest by done.
        by injection Hrest as <-.
      * by eapply Hfull.
Qed.

(** X1. [chunks(lst, n)] on a list: with n > 0 the chunks, concatenated in
    order, are the list; no chunk is empty or longer than n, and every
    chunk but the last has exactly n elements.  With n < 0 nothing is
    yielded, whatever the list holds; with n = 0 iterating raises a
    ValueError. *)
Theorem X1_chunks_partition {A : Type} (lst : list A) (n : Z) :
  match chunks lst n with
  | ValueError => n = 0%Z
  | Yields cs =>
      n ≠ 0%Z
      ∧ ((n < 0)%Z → cs = [])
      ∧ ((0 < n)%Z →
         concat cs = lst
         ∧ Forall (λ c, c ≠ [] ∧ length c ≤ Z.to_nat n) cs
         ∧ ∀ l1 c l2, cs = l1 ++ c :: l2 → l2 ≠ [] →
                      length c = Z.to_nat n)
  end.
Proof.
  destruct (Z.lt_trichotomy n 0) as [Hneg|[->|Hpos]].
  - unfold chunks. rewrite bool_decide_eq_false_2 by lia.
    destruct (Z.ltb_spec n 0); [|lia]. split; [lia|]. split; [done|lia].
  - done.
  - destruct (chunks_positive n (length lst) Hpos lst) as (cs & -> & Hcs);
      [done|]. split; [lia|]. split; [lia|done].
Qed.

(** ** [backfill_basic]: units of an unknown type *)

Lemma submit_units_unknown l1 u l2 s :
  Forall known_type l1 →
  unit_type_map !! Einheittyp u = None →
  submit_units (l1 ++ u :: l2) s = Raise (KeyError (Einheittyp u)).
Proof.
  intros Hall Hu. revert s. induction Hall as [|v l1 Hv _ IH]; intros s; simpl.
  - unfold submit_unit, getitem. by rewrite Hu.
  - destruct (submit_unit_ok v s Hv) as [s1 ->]. simpl. apply IH.
Qed.

(** X2. A chunk is processed without an exception when every unit that it
    inserts or updates has an [Einheittyp] that is a key of
    [unit_type_map]; the first inserted or updated unit with another
    [Einheittyp] ends the run with a KeyError of that [Einheittyp].  Units
    of the chunk that are neither new nor newer than the stored row are
    not looked at. *)
Theorem X2_unknown_unit_type_key_error (chunk : list BasicUnit) (w : World) :
  NoDup (unit_ids (basic_units (store w))) →
  let tbl := basic_units (store w) in
  let inserted_and_updated :=
    filter (λ u, EinheitMastrNummer u ∉ unit_ids tbl)
           (basic_units_chunk_unique chunk)
    ++ filter (λ u, exists_older tbl u) (basic_units_chunk_unique chunk) in
  (Forall known_type inserted_and_updated →
   ∃ w', process_chunk chunk w = Ok w')
  ∧ (∀ l1 u l2,
       inserted_and_updated = l1 ++ u :: l2 →
       Forall known_type l1 →
       unit_type_map !! Einheittyp u = None →
       process_chunk chunk w = Raise (KeyError (Einheittyp u))).
Proof.
  intros Hnd tbl iu. unfold process_chunk.
  destruct (merge_basic_chunk_spec chunk _ Hnd) as (t & -> & _ & _).
  fold tbl. fold iu. simpl. split.
  - intros Hall. edestruct submit_units_ok as [s ->]; [|by eexists].
    by apply Forall_forall.
  - intros l1 u l2 -> Hall Hu. by rewrite submit_units_unknown.
Qed.

(** ** [backfill_basic]: the requests that a chunk submits *)

(** A request without its [request_date]. *)
Definition request_key (r : AdditionalDataRequested)
  : string * string * string * string :=
  (req_EinheitMastrNummer r, additional_data_id r, technology r, data_type r).

Definition technology_of (u : BasicUnit) : string :=
  default "" (unit_type_map !! Einheittyp u).

(** The requests of one kind for the units with a reference of that kind. *)
Definition reference_requests (ref : BasicUnit → option string) (kind : string)
    (units : list BasicUnit) : list (string * string * string * string) :=
  omap (λ u, if truthy (ref u)
             then Some (EinheitMastrNummer u, default "" (ref u),
                        technology_of u, kind)
             else None) units.

(** A stored request that one of the units replaces. *)
Definition superseded (units : list BasicUnit) (r : AdditionalDataRequested)
  : Prop :=
  Exists (λ u, req_EinheitMastrNummer r = EinheitMastrNummer u
               ∧ technology r = technology_of u) units.

Lemma append_request_key u ref tech kind l t :
  request_key <$> (append_request u ref tech kind (l, t)).1
  = (request_key <$> l)
    ++ (if truthy ref then [(EinheitMastrNummer u, default "" ref, tech, kind)]
        else [])
  ∧ (t ≤ (append_request u ref tech kind (l, t)).2)%Z
  ∧ ∀ r, r ∈ (append_request u ref tech kind (l, t)).1 →
         r ∈ l ∨ (t ≤ request_date r
                   < (append_request u ref tech kind (l, t)).2)%Z.
Proof.
  unfold append_request. destruct (truthy ref); simpl.
  - rewrite fmap_app. split; [done|]. split; [lia|].
    intros r [Hr| ->%list_elem_of_singleton]%elem_of_app; [by left|right].
    simpl. lia.
  - rewrite app_nil_r. split; [done|]. split; [lia|]. by left.
Qed.

Lemma submit_units_requests units :
  ∀ s s',
    submit_units units s = Ok s' →
    (∀ r, r ∈ requested s → (request_date r < now s)%Z) →
    (now s ≤ now s')%Z
    ∧ requested s' = filter (λ r, ¬ superseded units r) (requested s)
    ∧ request_key <$> extended_data (requests s')
      = (request_key <$> extended_data (requests s))
        ++ ((λ u, (EinheitMastrNummer u, EinheitMastrNummer u,
                   technology_of u, "unit_data")) <$> units)
    ∧ request_key <$> eeg_data (requests s')
      = (request_key <$> eeg_data (requests s))
        ++ reference_requests EegMastrNummer "eeg_data" units
    ∧ request_key <$> kwk_data (requests s')
      = (request_key <$> kwk_data (requests s))
        ++ reference_requests KwkMastrNummer "kwk_data" units
    ∧ request_key <$> permit_data (requests s')
      = (request_key <$> permit_data (requests s))
        ++ reference_requests GenMastrNummer "permit_data" units
    ∧ ∀ r, r ∈ pending (requests s') →
           r ∈ pending (requests s) ∨ (now s ≤ request_date r < now s')%Z.
Proof.
  induction units as [|u rest IH]; intros s s' Hrun Hold; simpl in Hrun.
  - injection Hrun as <-. unfold reference_requests. simpl.
    rewrite !app_nil_r. split; [lia|]. split.
    { symmetry. apply filter_all. intros r _ Hex. by apply Exists_nil in Hex. }
    repeat split; auto.
  - destruct (submit_unit u s) as [s1|e] eqn:H1; [|done].
    cbv beta iota delta [rbind] in Hrun.
    revert H1. unfold submit_unit, getitem.
    destruct (unit_type_map !! Einheittyp u) as [tech|] eqn:Htech; [|done].
    cbv beta iota delta [rbind]. intros [= <-].
    destruct (append_request_key u (EegMastrNummer u) tech "eeg_data"
                (eeg_data (requests s)) (now s + 1)) as (Hk1 & Ht1 & Hn1).
    set (eeg := append_request u (EegMastrNummer u) tech "eeg_data" _) in *.
    destruct (append_request_key u (KwkMastrNummer u) tech "kwk_data"
                (kwk_data (requests s)) eeg.2) as (Hk2 & Ht2 & Hn2).
    set (kwk := append_request u (KwkMastrNummer u) tech "kwk_data" _) in *.
    destruct (append_request_key u (GenMastrNummer u) tech "permit_data"
                (permit_data (requests s)) kwk.2) as (Hk3 & Ht3 & Hn3).
    set (permit := append_request u (GenMastrNummer u) tech "permit_data" _) in *.
    cbn [fst snd] in *.
    assert (Htechof : technology_of u = tech).
    { unfold technology_of. by rewrite Htech. }
    apply IH in Hrun as (Hnow & Hreq & Hext & Heeg & Hkwk & Hperm & Hdates);
      cbn [now requests requested extended_data eeg_data kwk_data permit_data]
        in *.
    2:{ intros r [_ Hr]%list_elem_of_filter. apply Hold in Hr. lia. }
    split; [lia|]. split; [|split; [|split; [|split; [|split]]]].
    + rewrite Hreq, list_filter_filter. apply filter_ext_elem.
      intros r Hr. apply Hold in Hr. unfold superseded.
      rewrite Exists_cons, Htechof. unfold is_old_entry. split.
      * intros [Hrest Hnew] [[Hid Htec]|Hex]; [|done]. apply Hnew.
        rewrite !bool_decide_eq_true_2 by done. simpl.
        apply Is_true_true, Z.ltb_lt. lia.
      * intros Hno. split; [tauto|]. intros Hold'. apply Hno. left.
        apply Is_true_true in Hold'.
        apply andb_true_iff in Hold' as [Hold' _].
        apply andb_true_iff in Hold' as [Hid Htec].
        by apply bool_decide_eq_true in Hid, Htec.
    + rewrite Hext, fmap_app, <- app_assoc. simpl. by rewrite Htechof.
    + rewrite Heeg, Hk1, <- app_assoc. f_equal. unfold reference_requests.
      simpl. rewrite Htechof. by destruct (truthy (EegMastrNummer u)).
    + rewrite Hkwk, Hk2, <- app_assoc. f_equal. unfold reference_requests.
      simpl. rewrite Htechof. by destruct (truthy (KwkMastrNummer u)).
    + rewrite Hperm, Hk3, <- app_assoc. f_equal. unfold reference_requests.
      simpl. rewrite Htechof. by destruct (truthy (GenMastrNummer u)).
    + intros r Hr. destruct (Hdates r Hr) as [Hin|?]; [|right; lia].
      revert Hin. unfold pending.
      cbn [extended_data eeg_data kwk_data permit_data].
      rewrite !elem_of_app, list_elem_of_singleton.
      intros [[?| ->]|[Hin|[Hin|Hin]]].
      * left. tauto.
      * right. simpl. lia.
      * destruct (Hn1 r Hin) as [?|?]; [left; tauto|right; lia].
      * destruct (Hn2 r Hin) as [?|?]; [left; tauto|right; lia].
      * destruct (Hn3 r Hin) as [?|?]; [left; tauto|right; lia].
Qed.

(** X3. The requests after a chunk, when every stored request is older
    than the clock: the stored requests without those of an inserted or
    updated unit under its technology, followed by the new requests.  In
    this order the new requests are one [unit_data] request per inserted or
    updated unit, then the [eeg_data], the [kwk_data] and the
    [permit_data] requests of the units whose reference of that kind is
    neither [None] nor empty; their dates lie between the clock before and
    the clock after the chunk. *)
Theorem X3_requests_of_chunk (chunk : list BasicUnit) (w w' : World)
    (tbl' inserted_and_updated : list BasicUnit) :
  merge_basic_chunk chunk (basic_units (store w))
  = Ok (tbl', inserted_and_updated) →
  process_chunk chunk w = Ok w' →
  (∀ r, r ∈ additional_data_requested (store w) →
        (request_date r < clock w)%Z) →
  ∃ new,
    additional_data_requested (store w')
    = filter (λ r, ¬ superseded inserted_and_updated r)
             (additional_data_requested (store w)) ++ new
    ∧ request_key <$> new
      = ((λ u, (EinheitMastrNummer u, EinheitMastrNummer u,
                technology_of u, "unit_data")) <$> inserted_and_updated)
        ++ reference_requests EegMastrNummer "eeg_data" inserted_and_updated
        ++ reference_requests KwkMastrNummer "kwk_data" inserted_and_updated
        ++ reference_requests GenMastrNummer "permit_data"
             inserted_and_updated
    ∧ ∀ r, r ∈ new → (clock w ≤ request_date r < clock w')%Z.
Proof.
  intros Hmerge Hrun Hold. revert Hrun. unfold process_chunk.
  rewrite Hmerge. cbv beta iota delta [rbind].
  destruct (submit_units _ _) as [s|e] eqn:Hs; [|done]. intros [= <-].
  apply submit_units_requests in Hs
    as (Hnow & Hreq & Hext & Heeg & Hkwk & Hperm & Hdates); [|done].
  cbn [now requests requested extended_data eeg_data kwk_data permit_data
       store clock additional_data_requested] in *.
  exists (pending (requests s)). split; [by rewrite Hreq|]. split.
  - unfold pending. rewrite !fmap_app, Hext, Heeg, Hkwk, Hperm. done.
  - intros r Hr. destruct (Hdates r Hr) as [Hin|?]; [|done].
    by repeat (apply elem_of_app in Hin as [Hin|Hin];
               [by apply elem_of_nil in Hin|]); apply elem_of_nil in Hin.
Qed.

(** ** [backfill_basic]: the calls of the client *)

(** The value that the client gets as [date_from]. *)
Definition date_from (date : DateArg) : option Z :=
  match date with
  | DateTime t => Some t
  | DateNone | DateLatest => None
  end.

Lemma zip_replicate {A B} (l : list A) (y : B) :
  zip l (replicate (length l) y) = (λ x, (x, y)) <$> l.
Proof. induction l as [|x l IH]; [done|]. simpl. by rewrite IH. Qed.

(** X4. With a date that is not ["latest"], [backfill_basic] calls the
    client once for every entry of the technology list, in the order of the
    list, each time with the same limit and the same date; the chunks of
    all calls are processed in that order, and the first exception of a
    chunk is the exception of the run.  The technology [None] makes the one
    call for all technologies; a technology that is neither [None] nor a
    string nor a list ends the run before any call. *)
Theorem X4_explicit_date_calls
    (basic_unit_data : option string → Z → option Z → list (list BasicUnit))
    (technology : TechnologyArg) (date : DateArg) (limit : option Z)
    (w : World) :
  date ≠ DateLatest →
  match technology_list_of technology with
  | Ok technology_list =>
      backfill_basic basic_unit_data technology date limit w
      = let* w' :=
          process_chunks
            (technology_list ≫= λ tech,
               basic_unit_data tech (backfill_limit limit) (date_from date)) w in
        Ok (w', (λ tech, {| call_technology := tech;
                            call_limit := backfill_limit limit;
                            call_date_from := date_from date |})
                  <$> technology_list)
  | Raise e =>
      technology = TechnologyOther
      ∧ backfill_basic basic_unit_data technology date limit w
        = Raise (UnboundLocalError "technology_list")
  end.
Proof.
  intros Hdate.
  destruct (technology_list_of technology) as [techs|e] eqn:Htechs.
  - unfold backfill_basic, fetch_plan. rewrite Htechs.
    cbv beta iota delta [rbind].
    assert (Hplan : match date with
                    | DateLatest => latest_dates (basic_units (store w)) techs techs []
                    | DateNone => Ok (techs, replicate (length techs) None)
                    | DateTime t => Ok (techs, replicate (length techs) (Some t))
                    end = Ok (techs, replicate (length techs) (date_from date))).
    { by destruct date. }
    rewrite Hplan. cbn [fst snd]. rewrite zip_replicate, backfill_plan_chunks.
    unfold chunks_of_plan. rewrite <- list_fmap_compose. simpl.
    assert (Hbind : (((λ x, (x, date_from date)) <$> techs)
                     ≫= (λ p : option string * option Z,
                           basic_unit_data p.1 (backfill_limit limit) p.2))
                    = techs ≫= λ tech,
                        basic_unit_data tech (backfill_limit limit)
                          (date_from date)).
    { clear. induction techs as [|tech techs IH]; [done|].
      rewrite fmap_cons. cbn [mbind list_bind]. simpl. f_equal. exact IH. }
    rewrite Hbind. done.
  - by destruct technology.
Qed.

(** ** [backfill_basic]: the plan of [date="latest"] for a list *)

(** An entry of the technology list that is a technology of
    [reversed_unit_type_map]. *)
Definition named (tech : option string) : Prop :=
  truthy tech = true ∧ is_Some (reversed_unit_type_map !! default "" tech).

(** The date of the newest stored unit of a technology. *)
Definition newest_date_of (tbl : list BasicUnit) (tech : option string)
  : option Z :=
  max_date (dates_of_type tbl
              (default "" (reversed_unit_type_map !! default "" tech))).

Lemma latest_dates_named tbl l1 :
  Forall named l1 →
  ∀ rest technology_list dates,
    latest_dates tbl (l1 ++ rest) technology_list dates
    = latest_dates tbl rest technology_list
        (dates ++ (newest_date_of tbl <$> l1)).
Proof.
  induction 1 as [|tech l1 [Htruthy [typ Htyp]] _ IH];
    intros rest technology_list dates.
  - simpl. by rewrite app_nil_r.
  - simpl. rewrite Htruthy. unfold getitem. rewrite Htyp.
    cbv beta iota delta [rbind]. rewrite IH, <- app_assoc. simpl.
    unfold newest_date_of at 2. by rewrite Htyp.
Qed.

(** X5. [date="latest"] with a list of technologies that are all keys of
    [reversed_unit_type_map]: the plan has one entry per entry of the list,
    in its order, with the date of the newest stored unit of that
    technology ([None] when no unit of it is stored).  The first entry
    that is a non-empty string but no such key ends the run with a
    KeyError of that entry. *)
Theorem X5_latest_plan_of_list (tbl : list BasicUnit)
    (l1 : list (option string)) :
  Forall named l1 →
  fetch_plan (TechnologyList l1) DateLatest tbl
  = Ok ((λ tech, (tech, newest_date_of tbl tech)) <$> l1)
  ∧ ∀ tech l2,
      truthy tech = true →
      reversed_unit_type_map !! default "" tech = None →
      fetch_plan (TechnologyList (l1 ++ tech :: l2)) DateLatest tbl
      = Raise (KeyError (default "" tech)).
Proof.
  intros Hnamed. unfold fetch_plan. simpl. split.
  - pose proof (latest_dates_named tbl l1 Hnamed [] l1 []) as Hl.
    rewrite app_nil_r in Hl. rewrite Hl. simpl.
    rewrite <- (list_fmap_id l1) at 1. by rewrite zip_fmap_same.
  - intros tech l2 Htruthy Hnone. rewrite latest_dates_named by done.
    simpl. rewrite Htruthy. unfold getitem. by rewrite Hnone.
Qed.

(** X6. [date="latest"] with a list of technologies that has an entry
    [None] or [""] after entries that are keys of
    [reversed_unit_type_map]: the plan is the plan of [technology=None],
    whatever the other entries of the list are. *)
Theorem X6_latest_plan_falsy_entry (tbl : list BasicUnit)
    (l1 l2 : list (option string)) (tech : option string) :
  Forall named l1 →
  truthy tech = false →
  fetch_plan (TechnologyList (l1 ++ tech :: l2)) DateLatest tbl
  = fetch_plan TechnologyNone DateLatest tbl.
Proof.
  intros Hnamed Hfalsy. unfold fetch_plan. simpl.
  rewrite latest_dates_named by done. simpl. by rewrite Hfalsy.
Qed.

(** ** [retrieve_additional_data] *)

(** The ORM class of a technology and a data type: [orm_map[tech][kind]]. *)
Definition orm_class (tech kind : string) : option string :=
  orm_map !! tech ≫= λ by_kind, by_kind !! kind.

(** A unit without the query status information. *)
Definition strip (unit_dat : gmap string string) : gmap string string :=
  foldl (λ d k, delete k d) unit_dat query_status_information.

(** What a retrieval for [tech] and [kind] leaves as it is: the basic
    units, the requests of every other technology or data type, the rows
    of every other detail table; and what it changes in one direction
    only: requests are only deleted, the log of missed units only grows,
    no detail row is removed. *)
Definition frame (tech kind : string) (st st' : Store) : Prop :=
  basic_units st' = basic_units st
  ∧ filter (λ r, ¬ is_requested tech kind r) (additional_data_requested st')
    = filter (λ r, ¬ is_requested tech kind r) (additional_data_requested st)
  ∧ additional_data_requested st' `sublist_of` additional_data_requested st
  ∧ missed_additional_data st `prefix_of` missed_additional_data st'
  ∧ (∀ key, is_Some (details st !! key) → is_Some (details st' !! key))
  ∧ (∀ cls k, orm_class tech kind ≠ Some cls →
              details st' !! (cls, k) = details st !! (cls, k)).

Lemma frame_refl tech kind st : frame tech kind st st.
Proof. by repeat split. Qed.

Lemma frame_trans tech kind st1 st2 st3 :
  frame tech kind st1 st2 → frame tech kind st2 st3 → frame tech kind st1 st3.
Proof.
  intros (Hb1 & Hf1 & Hs1 & Hm1 & Hk1 & Ho1) (Hb2 & Hf2 & Hs2 & Hm2 & Hk2 & Ho2).
  split; [congruence|]. split; [congruence|]. split; [by etrans|].
  split; [by etrans|]. split; [auto|].
  intros cls k Hcls. by rewrite Ho2, Ho1.
Qed.

Lemma delete_requested_sublist tech kind missed tbl :
  ∀ n, delete_requested tech kind n missed tbl `sublist_of` tbl.
Proof.
  induction tbl as [|r rest IH]; intros n; simpl; [done|].
  destruct (is_requested tech kind r).
  - destruct n as [|n]; [done|].
    destruct (bool_decide _); [by apply sublist_skip|by apply sublist_cons].
  - by apply sublist_skip.
Qed.

Lemma delete_requested_others tech kind missed tbl :
  ∀ n, filter (λ r, ¬ is_requested tech kind r)
         (delete_requested tech kind n missed tbl)
       = filter (λ r, ¬ is_requested tech kind r) tbl.
Proof.
  induction tbl as [|r rest IH]; intros n; simpl; [done|].
  destruct (is_requested tech kind r) eqn:Hr.
  - destruct n as [|n]; [done|].
    rewrite (filter_cons_False _ r rest) by (rewrite Hr; simpl; tauto).
    destruct (bool_decide _); [|done].
    rewrite filter_cons_False by (rewrite Hr; simpl; tauto). done.
  - rewrite !filter_cons_True by (rewrite Hr; simpl; tauto). by rewrite IH.
Qed.

Lemma delitems_inv ks :
  NoDup ks →
  ∀ d d', delitems ks d = Ok d' →
          (∀ k, k ∈ ks → is_Some (d !! k))
          ∧ d' = foldl (λ d k, delete k d) d ks.
Proof.
  induction 1 as [|k ks Hk _ IH]; intros d d' Hrun; simpl in Hrun.
  - injection Hrun as <-. split; [|done]. by intros k ?%elem_of_nil.
  - unfold delitem in Hrun. destruct (d !! k) as [v|] eqn:Hv; [|done].
    cbv beta iota delta [rbind] in Hrun. apply IH in Hrun as [Hall ->].
    split; [|done]. intros k' [->|Hk']%elem_of_cons; [by eexists|].
    destruct (Hall k' Hk') as [v' Hv']. exists v'.
    rewrite lookup_delete_ne in Hv'; [done|]. by intros ->.
Qed.

Lemma delitems_Ok ks :
  NoDup ks →
  ∀ d, (∀ k, k ∈ ks → is_Some (d !! k)) →
       delitems ks d = Ok (foldl (λ d k, delete k d) d ks).
Proof.
  induction 1 as [|k ks Hk _ IH]; intros d Hall; simpl; [done|].
  unfold delitem. destruct (Hall k) as [v ->]; [by left|].
  cbv beta iota delta [rbind]. apply IH. intros k' Hk'.
  rewrite lookup_delete_ne by (by intros ->). apply Hall. by right.
Qed.

Lemma delitems_missing k1 k k2 :
  NoDup (k1 ++ k :: k2) →
  ∀ d, (∀ k', k' ∈ k1 → is_Some (d !! k')) → d !! k = None →
       delitems (k1 ++ k :: k2) d = Raise (KeyError k).
Proof.
  induction k1 as [|k0 k1 IH]; intros Hnd d Hall Hk; simpl.
  - unfold delitem. by rewrite Hk.
  - apply NoDup_cons in Hnd as [Hk0 Hnd].
    unfold delitem. destruct (Hall k0) as [v ->]; [by left|].
    cbv beta iota delta [rbind]. apply IH; [done| |].
    + intros k' Hk'. rewrite lookup_delete_ne; [apply Hall; by right|].
      intros ->. apply Hk0, elem_of_app. by left.
    + rewrite lookup_delete_ne; [done|]. intros ->. apply Hk0, elem_of_app.
      right. by left.
Qed.


Lemma query_status_information_NoDup : NoDup query_status_information.
Proof. by apply (bool_decide_unpack (NoDup query_status_information)). Qed.

Section RetrievalMore.

Variable RawDat : Type.
Variable _additional_data :
  nat → string → list string → string → list RawDat * list string.
Variable _flatten_dict : list RawDat → list (gmap string string).
Variable primary_key : string → string.

Local Abbreviation iteration :=
  (drain_iteration RawDat _additional_data _flatten_dict primary_key).
Local Abbreviation merge_dat := (merge_unit_dat primary_key).
Local Abbreviation merge_data := (merge_unit_data primary_key).
Local Abbreviation loop :=
  (drain_loop RawDat _additional_data _flatten_dict primary_key).
Local Abbreviation retrieve :=
  (retrieve_additional_data RawDat _additional_data _flatten_dict primary_key).

Lemma merge_dat_inv tech kind unit_dat dtl dtl' :
  merge_dat tech kind unit_dat dtl = Ok dtl' →
  ∃ cls k,
    orm_class tech kind = Some cls
    ∧ (∀ key, key ∈ query_status_information → is_Some (unit_dat !! key))
    ∧ strip unit_dat !! primary_key cls = Some k
    ∧ dtl' = <[(cls, k) := strip unit_dat ∪ default ∅ (dtl !! (cls, k))]> dtl.
Proof.
  unfold merge_unit_dat, orm_class, getitem.
  destruct (delitems _ unit_dat) as [d|e] eqn:Hd; [|done].
  apply (delitems_inv _ query_status_information_NoDup) in Hd as [Hall ->].
  fold (strip unit_dat). cbv beta iota delta [rbind].
  destruct (orm_map !! tech) as [by_kind|]; [|done]. simpl.
  destruct (by_kind !! kind) as [cls|]; [|done]. simpl.
  destruct (strip unit_dat !! primary_key cls) as [k|] eqn:Hk; [|done].
  intros [= <-]. by exists cls, k.
Qed.

Lemma merge_dat_Ok tech kind unit_dat dtl cls k :
  orm_class tech kind = Some cls →
  (∀ key, key ∈ query_status_information → is_Some (unit_dat !! key)) →
  strip unit_dat !! primary_key cls = Some k →
  merge_dat tech kind unit_dat dtl
  = Ok (<[(cls, k) := strip unit_dat ∪ default ∅ (dtl !! (cls, k))]> dtl).
Proof.
  unfold merge_unit_dat, orm_class, getitem. intros Hcls Hall Hk.
  rewrite (delitems_Ok _ query_status_information_NoDup) by done.
  fold (strip unit_dat). cbv beta iota delta [rbind].
  destruct (orm_map !! tech) as [by_kind|]; [|done]. simpl in Hcls.
  rewrite Hcls. simpl. by rewrite Hk.
Qed.

Lemma merge_data_frame tech kind unit_data :
  ∀ dtl dtl',
    merge_data tech kind unit_data dtl = Ok dtl' →
    (∀ key, is_Some (dtl !! key) → is_Some (dtl' !! key))
    ∧ (∀ cls k, orm_class tech kind ≠ Some cls →
                dtl' !! (cls, k) = dtl !! (cls, k)).
Proof.
  induction unit_data as [|ud rest IH]; intros dtl dtl' Hrun; simpl in Hrun.
  - by injection Hrun as <-.
  - destruct (merge_dat tech kind ud dtl) as [dtl1|e] eqn:H1; [|done].
    cbv beta iota delta [rbind] in Hrun.
    apply merge_dat_inv in H1 as (cls & k & Hcls & _ & _ & ->).
    apply IH in Hrun as [Hkeys Hother]. split.
    + intros key Hkey. apply Hkeys.
      destruct (decide (key = (cls, k))) as [->|Hne].
      * rewrite lookup_insert_eq. by eexists.
      * by rewrite lookup_insert_ne.
    + intros cls' k' Hcls'. rewrite Hother by done.
      rewrite lookup_insert_ne; [done|]. intros [= <- <-]. by apply Hcls'.
Qed.

Lemma iteration_frame tech kind chunksize d d' it :
  iteration tech kind chunksize d = Ok (d', it) →
  frame tech kind (drain_store d) (drain_store d').
Proof.
  unfold drain_iteration.
  destruct (requested_chunk _ tech kind chunksize) as [chunk|e]; [|done].
  cbv beta iota delta [rbind].
  destruct (additional_data_id <$> chunk) as [|i ids] eqn:Hids.
  { intros [= <- <-]. apply frame_refl. }
  destruct (getitem download_functions kind) as [fn|e]; [|done].
  cbv beta iota delta [rbind].
  destruct (merge_unit_data _ _ _ _ _) as [dtl|e] eqn:Hm; [|done].
  cbv beta iota delta [rbind]. intros [= <- <-].
  apply merge_data_frame in Hm as [Hkeys Hother].
  unfold frame. cbn [drain_store basic_units additional_data_requested
                       missed_additional_data details].
  split; [done|]. split; [apply delete_requested_others|].
  split; [apply delete_requested_sublist|]. split; [by eexists|done].
Qed.

Lemma loop_frame tech kind limit chunksize fuel :
  ∀ units_queried d,
    match loop fuel tech kind limit chunksize units_queried d with
    | Finished _ d' | Raised _ d' =>
        frame tech kind (drain_store d) (drain_store d')
    | OutOfFuel => True
    end.
Proof.
  induction fuel as [|fuel IH]; intros uq d; simpl; [done|].
  destruct (int_lt uq limit) as [[|]|e]; try apply frame_refl.
  destruct (iteration tech kind chunksize d) as [[d1 it]|e] eqn:Hit;
    [|apply frame_refl].
  apply iteration_frame in Hit. case_bool_decide; [done|].
  specialize (IH (uq + Z.of_nat (length (selected it)))%Z d1).
  destruct (loop _ _ _ _ _ _ _); [| |done]; by eapply frame_trans.
Qed.

(** X7. However a retrieval for a technology and a data type ends, with
    whatever client and after any number of iterations, it leaves the
    basic units, the requests of every other technology or data type (in
    their order) and the rows of the detail tables of other classes as
    they were; the requests that are left are requests that were there
    before, in their order; the log of missed units is the old log with
    entries added at its end; and every detail row that was stored is
    still stored. *)
Theorem X7_retrieval_frame (fuel : nat) (tech kind : string)
    (limit : option Z) (chunksize : Z) (st : Store) :
  match retrieve fuel tech kind limit chunksize st with
  | Finished _ d | Raised _ d => frame tech kind st (drain_store d)
  | OutOfFuel => True
  end.
Proof.
  unfold retrieve_additional_data.
  exact (loop_frame tech kind limit _ fuel 0%Z
           {| drain_store := st; drain_log := [] |}).
Qed.

Lemma merge_dat_unmapped tech kind unit_dat dtl :
  (∀ key, key ∈ query_status_information → is_Some (unit_dat !! key)) →
  orm_class tech kind = None →
  merge_dat tech kind unit_dat dtl
  = Raise (KeyError (match orm_map !! tech with
                     | Some _ => kind
                     | None => tech
                     end)).
Proof.
  unfold merge_unit_dat, orm_class, getitem. intros Hall Hcls.
  rewrite (delitems_Ok _ query_status_information_NoDup) by done.
  cbv beta iota delta [rbind].
  destruct (orm_map !! tech) as [by_kind|]; [|done]. simpl in Hcls.
  by rewrite Hcls.
Qed.

Lemma merge_dat_status_missing tech kind unit_dat dtl k1 k k2 :
  query_status_information = k1 ++ k :: k2 →
  (∀ key, key ∈ k1 → is_Some (unit_dat !! key)) →
  unit_dat !! k = None →
  merge_dat tech kind unit_dat dtl = Raise (KeyError k).
Proof.
  intros Hks Hall Hk. unfold merge_unit_dat.
  pose proof query_status_information_NoDup as Hnd. rewrite Hks in *.
  by rewrite delitems_missing.
Qed.

Lemma first_iteration_raises tech kind fn limit chunksize st fuel ud uds e :
  (0 < limit)%Z → (0 ≤ chunksize)%Z →
  download_functions !! kind = Some fn →
  let c := clamp_chunksize (Some limit) chunksize in
  let ids := additional_data_id
               <$> take (Z.to_nat c)
                     (filter (λ r, is_requested tech kind r)
                        (additional_data_requested st)) in
  ids ≠ [] →
  _flatten_dict (_additional_data 0 tech ids fn).1 = ud :: uds →
  merge_dat tech kind ud (details st) = Raise e →
  retrieve (S fuel) tech kind (Some limit) chunksize st
  = Raised e {| drain_store := st; drain_log := [] |}.
Proof.
  intros Hlimit Hchunk Hfn c ids Hids Hflat Hraise.
  unfold retrieve_additional_data. fold c. cbn [drain_loop int_lt].
  destruct (Z.ltb_spec 0 limit) as [_|]; [|lia].
  unfold drain_iteration, requested_chunk. cbn [drain_store drain_log].
  assert (Hc : (0 ≤ c)%Z).
  { unfold c. rewrite clamp_chunksize_min by lia. lia. }
  destruct (Z.ltb_spec c 0) as [|_]; [lia|].
  cbv beta iota delta [rbind]. fold ids.
  destruct ids as [|i ids'] eqn:Hids'; [done|].
  unfold getitem. rewrite Hfn. cbv beta iota delta [rbind].
  cbn [length]. rewrite Hflat. cbn [merge_unit_data]. rewrite Hraise. done.
Qed.

(** X8. A retrieval whose first chunk is not empty and whose client answers
    with at least one unit ends with a KeyError, and with the store as it
    was, in two cases: the first unit of the answer lacks one of the four
    keys of the query status information (the KeyError names the first
    such key); or it has them all, but [orm_map] has no entry for the
    technology or, under the technology, none for the data type (the
    KeyError names the technology, or else the data type). *)
Theorem X8_first_unit_key_error (fuel : nat) (tech kind fn : string)
    (limit chunksize : Z) (st : Store) (ud : gmap string string)
    (uds : list (gmap string string)) :
  (0 < limit)%Z → (0 ≤ chunksize)%Z →
  download_functions !! kind = Some fn →
  let c := clamp_chunksize (Some limit) chunksize in
  let ids := additional_data_id
               <$> take (Z.to_nat c)
                     (filter (λ r, is_requested tech kind r)
                        (additional_data_requested st)) in
  ids ≠ [] →
  _flatten_dict (_additional_data 0 tech ids fn).1 = ud :: uds →
  ((∀ key, key ∈ query_status_information → is_Some (ud !! key)) →
   orm_class tech kind = None →
   retrieve (S fuel) tech kind (Some limit) chunksize st
   = Raised (KeyError (match orm_map !! tech with
                       | Some _ => kind
                       | None => tech
                       end))
       {| drain_store := st; drain_log := [] |})
  ∧ (∀ k1 k k2,
       query_status_information = k1 ++ k :: k2 →
       (∀ key, key ∈ k1 → is_Some (ud !! key)) →
       ud !! k = None →
       retrieve (S fuel) tech kind (Some limit) chunksize st
       = Raised (KeyError k) {| drain_store := st; drain_log := [] |}).
Proof.
  intros Hlimit Hchunk Hfn c ids Hids Hflat. split.
  - intros Hall Hcls.
    eapply first_iteration_raises; [done..|]. by apply merge_dat_unmapped.
  - intros k1 k k2 Hks Hall Hk.
    eapply first_iteration_raises; [done..|].
    by eapply merge_dat_status_missing.
Qed.




Lemma delete_requested_all_missed tech kind missed tbl :
  ∀ n,
    (∀ r, r ∈ take n (filter (λ r, is_requested tech kind r) tbl) →
          additional_data_id r ∈ missed) →
    delete_requested tech kind n missed tbl = tbl.
Proof.
  induction tbl as [|r rest IH]; intros n Hall; simpl; [done|].
  destruct (is_requested tech kind r) eqn:Hr.
  - rewrite filter_cons_True in Hall by (by rewrite Hr).
    destruct n as [|n]; [done|].
    rewrite bool_decide_eq_true_2 by (apply Hall; by left).
    f_equal. apply IH. intros r' Hr'. apply Hall. by right.
  - rewrite filter_cons_False in Hall by (rewrite Hr; intros []).
    f_equal. by apply IH.
Qed.

(** X19. A client that answers a chunk with no unit and with all ids of
    the chunk as missed: the retrieval ends after this one chunk, every
    request is kept, and the ids of the chunk are added to the log of
    missed units.  A second retrieval from the store that the first one
    left does the same, so the log then holds these ids twice. *)
Theorem X19_all_missed_logged_again (fuel : nat) (tech kind fn : string)
    (limit chunksize : Z) (st : Store) :
  (0 < limit)%Z → (0 ≤ chunksize)%Z →
  download_functions !! kind = Some fn →
  let c := clamp_chunksize (Some limit) chunksize in
  let ids := additional_data_id
               <$> take (Z.to_nat c)
                     (filter (λ r, is_requested tech kind r)
                        (additional_data_requested st)) in
  ids ≠ [] →
  _flatten_dict (_additional_data 0 tech ids fn).1 = [] →
  (_additional_data 0 tech ids fn).2 = ids →
  let logged missed :=
    {| drain_store :=
         {| basic_units := basic_units st;
            additional_data_requested := additional_data_requested st;
            missed_additional_data := missed;
            details := details st |};
       drain_log := [ {| selected := ids; number_units_merged := 0;
                         missed_units := ids |} ] |} in
  retrieve (S fuel) tech kind (Some limit) chunksize st
  = Finished (Z.of_nat (length ids))
      (logged (missed_additional_data st ++ ids))
  ∧ retrieve (S fuel) tech kind (Some limit) chunksize
      (drain_store (logged (missed_additional_data st ++ ids)))
    = Finished (Z.of_nat (length ids))
        (logged ((missed_additional_data st ++ ids) ++ ids)).
Proof.
  intros Hlimit Hchunk Hfn c ids Hids Hflat Hmissed logged.
  assert (Hrun : ∀ missed,
            retrieve (S fuel) tech kind (Some limit) chunksize
              {| basic_units := basic_units st;
                 additional_data_requested := additional_data_requested st;
                 missed_additional_data := missed;
                 details := details st |}
            = Finished (Z.of_nat (length ids)) (logged (missed ++ ids))).
  { intros missed. unfold retrieve_additional_data. fold c.
    cbn [drain_loop int_lt].
    destruct (Z.ltb_spec 0 limit) as [_|]; [|lia].
    unfold drain_iteration, requested_chunk.
    cbn [drain_store drain_log additional_data_requested basic_units
         missed_additional_data details].
    assert (Hc : (0 ≤ c)%Z).
    { unfold c. rewrite clamp_chunksize_min by lia. lia. }
    destruct (Z.ltb_spec c 0) as [|_]; [lia|].
    cbv beta iota delta [rbind]. fold ids.
    destruct ids as [|i ids'] eqn:Hids'; [done|].
    unfold getitem. rewrite Hfn. cbv beta iota delta [rbind].
    cbn [length]. rewrite Hflat, Hmissed. cbn [merge_unit_data].
    cbv beta iota delta [rbind]. cbn [selected number_units_merged length].
    rewrite bool_decide_eq_true_2 by done.
    rewrite delete_requested_all_missed.
    - unfold logged. rewrite Z.add_0_l. done.
    - intros r Hr. rewrite take_length_take in Hr.
      rewrite <- Hids'. by apply list_elem_of_fmap_2. }
  split.
  - destruct st as [bu rq ms dt]. exact (Hrun ms).
  - exact (Hrun (missed_additional_data st ++ ids)).
Qed.

Lemma delete_requested_answered tech kind tbl :
  ∀ n, filter (λ r, is_requested tech kind r)
         (delete_requested tech kind n [] tbl)
       = drop n (filter (λ r, is_requested tech kind r) tbl).
Proof.
  induction tbl as [|r rest IH]; intros n; simpl; [by destruct n|].
  destruct (is_requested tech kind r) eqn:Hr.
  - rewrite (filter_cons_True _ r rest) by (by rewrite Hr).
    destruct n as [|n].
    + by rewrite filter_cons_True by (by rewrite Hr).
    + apply IH.
  - rewrite !filter_cons_False by (rewrite Hr; intros []). apply IH.
Qed.

Lemma filter_nil_others {A} (P : A → Prop) `{!∀ x, Decision (P x)}
    (l : list A) :
  filter P l = [] → filter (λ x, ¬ P x) l = l.
Proof.
  induction l as [|x l IH]; [done|]. rewrite filter_cons.
  destruct (decide (P x)) as [Hx|Hx]; [done|]. intros Hl.
  rewrite filter_cons_True by done. by rewrite IH.
Qed.

(** The client answers every chunk of the retrieval completely: it
    reports no id as missed, and its answer has at least one unit and is
    merged without an exception. *)
Definition answers_all (tech kind fn : string) : Prop :=
  ∀ n ids dtl,
    ids ≠ [] →
    (_additional_data n tech ids fn).2 = []
    ∧ _flatten_dict (_additional_data n tech ids fn).1 ≠ []
    ∧ ∃ dtl', merge_data tech kind
                (_flatten_dict (_additional_data n tech ids fn).1) dtl
              = Ok dtl'.

Lemma loop_drains tech kind fn limit c :
  (0 < c)%Z →
  download_functions !! kind = Some fn →
  answers_all tech kind fn →
  ∀ fuel units_queried d,
    let pending_requests :=
      filter (λ r, is_requested tech kind r)
        (additional_data_requested (drain_store d)) in
    (units_queried + Z.of_nat (length pending_requests) ≤ limit)%Z →
    length pending_requests < fuel →
    ∃ d',
      loop fuel tech kind (Some limit) c units_queried d
      = Finished (units_queried + Z.of_nat (length pending_requests)) d'
      ∧ filter (λ r, is_requested tech kind r)
          (additional_data_requested (drain_store d')) = []
      ∧ missed_additional_data (drain_store d')
        = missed_additional_data (drain_store d).
Proof.
  intros Hc Hfn Hclient.
  induction fuel as [|fuel IH]; intros uq d; cbv zeta; intros Hlimit Hfuel;
    [lia|].
  cbn [drain_loop int_lt]. destruct (Z.ltb_spec uq limit) as [Hlt|Hge].
  2:{ exists d.
      destruct (filter _ _) as [|r0 rest]; [|simpl in Hlimit; lia].
      by rewrite Z.add_0_r. }
  unfold drain_iteration, requested_chunk.
  destruct (Z.ltb_spec c 0) as [|_]; [lia|]. cbv beta iota delta [rbind].
  destruct (filter (λ r, is_requested tech kind r)
              (additional_data_requested (drain_store d)))
    as [|r0 rest] eqn:Hpending.
  { rewrite take_nil. simpl. eexists. split; [by rewrite Z.add_0_r|done]. }
  set (chunk := take (Z.to_nat c) (r0 :: rest)).
  assert (Hchunk : length chunk = Nat.min (Z.to_nat c) (S (length rest))).
  { unfold chunk. by rewrite length_take. }
  destruct (additional_data_id <$> chunk) as [|i ids'] eqn:Hids.
  { apply (f_equal length) in Hids. rewrite length_fmap in Hids.
    simpl in Hids. lia. }
  unfold getitem. rewrite Hfn. cbv beta iota delta [rbind].
  destruct (Hclient (length (drain_log d)) (i :: ids')
              (details (drain_store d))) as (Hmissed & Hdata & dtl & Hmerge);
    [done|].
  rewrite Hmerge, Hmissed. cbv beta iota delta [rbind].
  cbn [selected number_units_merged].
  rewrite bool_decide_eq_false_2.
  2:{ intros Hzero. by apply length_zero_iff_nil in Hzero. }
  match goal with
  | |- context [drain_loop _ _ _ _ fuel _ _ _ _ ?uq' ?d1] =>
      destruct (IH uq' d1) as (d' & Hrun & Hdone & Hlog)
  end.
  - cbn [drain_store additional_data_requested].
    rewrite delete_requested_answered, Hpending, length_drop.
    rewrite <- Hids, length_fmap. simpl in *. lia.
  - cbn [drain_store additional_data_requested].
    rewrite delete_requested_answered, Hpending, length_drop.
    simpl in *. lia.
  - exists d'. split; [|split; [done|]].
    + rewrite Hrun. f_equal.
      cbn [drain_store additional_data_requested].
      rewrite delete_requested_answered, Hpending, length_drop.
      rewrite <- Hids, length_fmap. simpl in *. lia.
    + rewrite Hlog. cbn [drain_store missed_additional_data].
      apply app_nil_r.
Qed.

(** X21. With a positive chunk size, a limit that is not less than the
    number of requests for the technology and the data type, and a client
    that answers every chunk completely, a retrieval ends normally, given
    more iterations than there are such requests; it has then queried
    exactly these requests, none of them is left, every other request is
    left as it was, and nothing is added to the log of missed units. *)
Theorem X21_retrieval_drains (fuel : nat) (tech kind fn : string)
    (limit chunksize : Z) (st : Store) :
  let pending_requests :=
    filter (λ r, is_requested tech kind r) (additional_data_requested st) in
  (0 < chunksize)%Z →
  (Z.of_nat (length pending_requests) ≤ limit)%Z →
  download_functions !! kind = Some fn →
  answers_all tech kind fn →
  length pending_requests < fuel →
  ∃ d,
    retrieve fuel tech kind (Some limit) chunksize st
    = Finished (Z.of_nat (length pending_requests)) d
    ∧ additional_data_requested (drain_store d)
      = filter (λ r, ¬ is_requested tech kind r) (additional_data_requested st)
    ∧ missed_additional_data (drain_store d) = missed_additional_data st.
Proof.
  intros pending_requests Hchunk Hlimit Hfn Hclient Hfuel.
  unfold retrieve_additional_data.
  destruct (decide (limit = 0%Z)) as [->|Hne].
  - assert (Hnone : length pending_requests = 0) by lia.
    destruct fuel as [|fuel]; [lia|]. simpl. rewrite Hnone.
    eexists. split; [done|]. split; [|done]. simpl. symmetry.
    apply filter_nil_others. by apply length_zero_iff_nil.
  - destruct (loop_drains tech kind fn limit
                (clamp_chunksize (Some limit) chunksize)) with
      (fuel := fuel) (units_queried := 0%Z)
      (d := {| drain_store := st; drain_log := [] |})
      as (d & Hrun & Hdone & Hlog); try done.
    { rewrite clamp_chunksize_min by done. lia. }
    pose proof (X := loop_frame tech kind (Some limit)
                  (clamp_chunksize (Some limit) chunksize) fuel 0%Z
                  {| drain_store := st; drain_log := [] |}).
    rewrite Hrun in X. destruct X as (_ & Hothers & _).
    simpl in Hothers.
    exists d. split; [by rewrite Hrun|]. split; [|done].
    rewrite <- Hothers. symmetry. by apply filter_nil_others.
Qed.

End RetrievalMore.

(** ** [backfill_basic]: what a run keeps and what it adds *)

(** Every row of [tbl] has a row of [tbl'] with its id that is not older. *)
Definition not_older (tbl tbl' : list BasicUnit) : Prop :=
  ∀ r, r ∈ tbl →
       ∃ r', r' ∈ tbl'
             ∧ EinheitMastrNummer r' = EinheitMastrNummer r
             ∧ (DatumLetzeAktualisierung r ≤ DatumLetzeAktualisierung r')%Z.

Lemma merge_basic_chunk_not_older chunk tbl tbl' iu :
  NoDup (unit_ids tbl) →
  merge_basic_chunk chunk tbl = Ok (tbl', iu) →
  not_older tbl tbl' ∧ ∀ r', r' ∈ tbl' → r' ∈ tbl ∨ r' ∈ chunk.
Proof.
  intros Hnd Hrun.
  destruct (merge_basic_chunk_spec chunk tbl Hnd) as (t & Heq & _ & Hmem).
  rewrite Heq in Hrun. injection Hrun as <- <-. split.
  - intros r Hr.
    destruct (decide (Exists (λ u, EinheitMastrNummer u = EinheitMastrNummer r
                                   ∧ (DatumLetzeAktualisierung r
                                      < DatumLetzeAktualisierung u)%Z)
                        (basic_units_chunk_unique chunk))) as [Hex|Hno].
    + apply Exists_exists in Hex as (u & Hu & Hid & Hts).
      exists u. split; [|split; [done|lia]]. apply Hmem. right.
      split; [done|]. right. apply exists_older_true. by exists r.
    + exists r. split; [|split; [done|lia]]. apply Hmem. left.
      split; [done|]. intros u Hu Hid Hts. apply Hno, Exists_exists.
      by exists u.
  - intros r' [[Hr' _]|[Hr' _]]%Hmem; [by left|right].
    by apply unique_elem_of_chunk.
Qed.

(** X18. A run of the chunk loop that ends without an exception, from a
    table of basic units with unique ids: every unit that is left of a
    chunk after its duplicates are removed has a stored row with its id
    that is not older; every row that was stored has one too, so no unit
    is lost and none gets older; every stored row was stored before or
    comes from one of the chunks; and the ids are still unique. *)
Theorem X18_run_keeps_and_adds (chunks : list (list BasicUnit)) (w w' : World) :
  NoDup (unit_ids (basic_units (store w))) →
  process_chunks chunks w = Ok w' →
  (∀ c u, c ∈ chunks → u ∈ basic_units_chunk_unique c →
          ∃ r, r ∈ basic_units (store w')
               ∧ EinheitMastrNummer r = EinheitMastrNummer u
               ∧ (DatumLetzeAktualisierung u ≤ DatumLetzeAktualisierung r)%Z)
  ∧ not_older (basic_units (store w)) (basic_units (store w'))
  ∧ (∀ r, r ∈ basic_units (store w') →
          r ∈ basic_units (store w) ∨ ∃ c, c ∈ chunks ∧ r ∈ c)
  ∧ NoDup (unit_ids (basic_units (store w'))).
Proof.
  intros Hnd Hrun. split; [|split; [|split]].
  - intros c u Hc Hu.
    destruct (process_chunks_covers chunks w w' Hnd Hrun c Hc u Hu)
      as (r & Hr & Hid & Hts).
    exists r. split; [done|]. split; [done|lia].
  - revert w Hnd Hrun. induction chunks as [|c rest IH]; intros w Hnd Hrun;
      simpl in Hrun.
    + injection Hrun as <-. intros r Hr. exists r. split; [done|].
      split; [done|lia].
    + destruct (process_chunk c w) as [w1|e] eqn:H1; [|done].
      cbv beta iota delta [rbind] in Hrun.
      pose proof (process_chunk_NoDup c w w1 Hnd H1) as Hnd1.
      apply process_chunk_basic_units in H1 as (iu & H1).
      apply merge_basic_chunk_not_older in H1 as [Hkeep _]; [|done].
      intros r Hr. destruct (Hkeep r Hr) as (r1 & Hr1 & Hid1 & Hts1).
      destruct (IH w1 Hnd1 Hrun r1 Hr1) as (r' & Hr' & Hid & Hts).
      exists r'. split; [done|]. split; [congruence|lia].
  - revert w Hnd Hrun. induction chunks as [|c rest IH]; intros w Hnd Hrun;
      simpl in Hrun.
    + injection Hrun as <-. by left.
    + destruct (process_chunk c w) as [w1|e] eqn:H1; [|done].
      cbv beta iota delta [rbind] in Hrun.
      pose proof (process_chunk_NoDup c w w1 Hnd H1) as Hnd1.
      apply process_chunk_basic_units in H1 as (iu & H1).
      apply merge_basic_chunk_not_older in H1 as [_ Hfrom]; [|done].
      intros r Hr. destruct (IH w1 Hnd1 Hrun r Hr) as [Hr1|(c' & Hc' & Hin)].
      * destruct (Hfrom r Hr1) as [?|?]; [by left|right].
        exists c. split; [by left|done].
      * right. exists c'. split; [by right|done].
  - by eapply process_chunks_NoDup.
Qed.

(** ** The theorems at example data *)

Import Examples.

Lemma X1_chunks_partition_witness :
  match chunks [1; 2; 3; 4; 5] 2 with
  | ValueError => 2%Z = 0%Z
  | Yields cs =>
      2%Z ≠ 0%Z
      ∧ ((2 < 0)%Z → cs = [])
      ∧ ((0 < 2)%Z →
         concat cs = [1; 2; 3; 4; 5]
         ∧ Forall (λ c, c ≠ [] ∧ length c ≤ Z.to_nat 2) cs
         ∧ ∀ l1 c l2, cs = l1 ++ c :: l2 → l2 ≠ [] →
                      length c = Z.to_nat 2)
  end.
Proof. exact (X1_chunks_partition [1; 2; 3; 4; 5] 2). Defined.

Lemma X18_run_keeps_and_adds_witness :
  ∃ w',
    process_chunks
      [[wind_unit "A" 5 "x"; wind_unit "A" 3 "y"]; [wind_unit "B" 0 "z"]]
      {| store := store_of [solar_unit "B" 1]; clock := 100 |} = Ok w'
    ∧ (∀ c u,
         c ∈ [[wind_unit "A" 5 "x"; wind_unit "A" 3 "y"];
              [wind_unit "B" 0 "z"]] →
         u ∈ basic_units_chunk_unique c →
         ∃ r, r ∈ basic_units (store w')
              ∧ EinheitMastrNummer r = EinheitMastrNummer u
              ∧ (DatumLetzeAktualisierung u ≤ DatumLetzeAktualisierung r)%Z)
    ∧ not_older [solar_unit "B" 1] (basic_units (store w'))
    ∧ (∀ r, r ∈ basic_units (store w') →
            r ∈ [solar_unit "B" 1]
            ∨ ∃ c, c ∈ [[wind_unit "A" 5 "x"; wind_unit "A" 3 "y"];
                        [wind_unit "B" 0 "z"]] ∧ r ∈ c)
    ∧ NoDup (unit_ids (basic_units (store w'))).
Proof.
  destruct (process_chunks
              [[wind_unit "A" 5 "x"; wind_unit "A" 3 "y"]; [wind_unit "B" 0 "z"]]
              {| store := store_of [solar_unit "B" 1]; clock := 100 |})
    as [w'|e] eqn:Hrun; [|by vm_compute in Hrun].
  exists w'. split; [done|].
  apply (X18_run_keeps_and_adds
           [[wind_unit "A" 5 "x"; wind_unit "A" 3 "y"]; [wind_unit "B" 0 "z"]]
           {| store := store_of [solar_unit "B" 1]; clock := 100 |} w').
  - compute_done.
  - exact Hrun.
Defined.

Lemma X19_all_missed_logged_again_witness :
  let logged missed :=
    {| drain_store :=
         {| basic_units := [];
            additional_data_requested := [wind_request "SEE1"];
            missed_additional_data := missed;
            details := ∅ |};
       drain_log := [ {| selected := ["SEE1"]; number_units_merged := 0;
                         missed_units := ["SEE1"] |} ] |} in
  retrieve_additional_data _ client_none flat unit_key 1 "wind" "unit_data"
    (Some 10%Z) 1000 (requests_store ["SEE1"])
  = Finished 1 (logged ["SEE1"])
  ∧ retrieve_additional_data _ client_none flat unit_key 1 "wind" "unit_data"
      (Some 10%Z) 1000 (drain_store (logged ["SEE1"]))
    = Finished 1 (logged ["SEE1"; "SEE1"]).
Proof.
  apply (X19_all_missed_logged_again _ client_none flat unit_key 0 "wind"
           "unit_data" "_extended_unit_data" 10 1000 (requests_store ["SEE1"])).
  - lia.
  - lia.
  - reflexivity.
  - done.
  - reflexivity.
  - reflexivity.
Defined.

Lemma client_all_answers_all :
  answers_all _ client_all flat unit_key "wind" "unit_data"
    "_extended_unit_data".
Proof.
  intros n ids dtl Hids. split; [done|]. split; [by destruct ids|].
  unfold client_all, flat. cbn [fst]. clear Hids. revert dtl.
  induction ids as [|i ids IH]; intros dtl; [by eexists|].
  rewrite fmap_cons. cbn [merge_unit_data].
  rewrite (merge_dat_Ok unit_key "wind" "unit_data" (unit_answer i) dtl
             "WindExtended" i).
  - apply IH.
  - reflexivity.
  - intros key Hkey.
    repeat (apply elem_of_cons in Hkey as [->|Hkey]); [by eexists..|].
    by apply elem_of_nil in Hkey.
  - reflexivity.
Qed.

Lemma X21_retrieval_drains_witness :
  ∃ d,
    retrieve_additional_data _ client_all flat unit_key 10 "wind" "unit_data"
      (Some 5%Z) 2 (requests_store ["SEE1"; "SEE2"; "SEE3"])
    = Finished 3 d
    ∧ additional_data_requested (drain_store d) = []
    ∧ missed_additional_data (drain_store d) = [].
Proof.
  apply (X21_retrieval_drains _ client_all flat unit_key 10 "wind" "unit_data"
           "_extended_unit_data" 5 2 (requests_store ["SEE1"; "SEE2"; "SEE3"])).
  - lia.
  - simpl. lia.
  - reflexivity.
  - apply client_all_answers_all.
  - simpl. lia.
Defined.

Lemma X2_unknown_unit_type_key_error_witness :
  process_chunk [wind_unit "A" 5 "x"; tidal_unit "T" 1; solar_unit "B" 2]
    {| store := store_of []; clock := 0 |}
  = Raise (KeyError "Gezeitenkraft").
Proof.
  apply (λ H, proj2 (X2_unknown_unit_type_key_error
           [wind_unit "A" 5 "x"; tidal_unit "T" 1; solar_unit "B" 2]
           {| store := store_of []; clock := 0 |} H)
           [wind_unit "A" 5 "x"] (tidal_unit "T" 1) [solar_unit "B" 2]).
  - compute_done.
  - reflexivity.
  - constructor; [by exists "wind"|constructor].
  - reflexivity.
Defined.

Lemma X3_requests_of_chunk_witness :
  ∃ w' new,
    process_chunk [wind_unit "SEE1" 5 "x"]
      {| store := requests_store ["SEE1"; "SEE2"]; clock := 10 |} = Ok w'
    ∧ additional_data_requested (store w')
      = filter (λ r, ¬ superseded [wind_unit "SEE1" 5 "x"] r)
               [wind_request "SEE1"; wind_request "SEE2"] ++ new
    ∧ request_key <$> new
      = [("SEE1", "SEE1", "wind", "unit_data");
         ("SEE1", "EEG1", "wind", "eeg_data")]
    ∧ ∀ r, r ∈ new → (10 ≤ request_date r < clock w')%Z.
Proof.
  destruct (process_chunk [wind_unit "SEE1" 5 "x"]
              {| store := requests_store ["SEE1"; "SEE2"]; clock := 10 |})
    as [w'|e] eqn:Hrun; [|by vm_compute in Hrun].
  destruct (X3_requests_of_chunk [wind_unit "SEE1" 5 "x"]
              {| store := requests_store ["SEE1"; "SEE2"]; clock := 10 |} w'
              [wind_unit "SEE1" 5 "x"] [wind_unit "SEE1" 5 "x"])
    as (new & Hstored & Hkeys & Hdates).
  - reflexivity.
  - exact Hrun.
  - intros r Hr. simpl in Hr.
    repeat (apply elem_of_cons in Hr as [->|Hr]); [simpl; lia..|].
    by apply elem_of_nil in Hr.
  - by exists w', new.
Defined.

Lemma X4_explicit_date_calls_witness :
  backfill_basic no_basic_units
    (TechnologyList [Some "wind"; None; Some "solar"]) (DateTime 7) None
    {| store := store_of []; clock := 0 |}
  = Ok ({| store := store_of []; clock := 0 |},
        [ {| call_technology := Some "wind"; call_limit := 100000000;
             call_date_from := Some 7%Z |};
          {| call_technology := None; call_limit := 100000000;
             call_date_from := Some 7%Z |};
          {| call_technology := Some "solar"; call_limit := 100000000;
             call_date_from := Some 7%Z |} ]).
Proof.
  assert (Hdate : DateTime 7 ≠ DateLatest) by done.
  exact (X4_explicit_date_calls no_basic_units
           (TechnologyList [Some "wind"; None; Some "solar"]) (DateTime 7)
           None {| store := store_of []; clock := 0 |} Hdate).
Defined.

Lemma X5_latest_plan_of_list_witness :
  fetch_plan (TechnologyList [Some "solar"; Some "hydro"]) DateLatest
    [wind_unit "A" 5 ""; solar_unit "B" 7; solar_unit "C" 3]
  = Ok [(Some "solar", Some 7%Z); (Some "hydro", None)].
Proof.
  apply (λ H, proj1 (X5_latest_plan_of_list
           [wind_unit "A" 5 ""; solar_unit "B" 7; solar_unit "C" 3]
           [Some "solar"; Some "hydro"] H)).
  repeat constructor; by eexists.
Defined.

Lemma X6_latest_plan_falsy_entry_witness :
  fetch_plan (TechnologyList [Some "solar"; Some ""; Some "tidal"]) DateLatest
    [wind_unit "A" 5 ""; solar_unit "B" 7]
  = fetch_plan TechnologyNone DateLatest
      [wind_unit "A" 5 ""; solar_unit "B" 7].
Proof.
  apply (X6_latest_plan_falsy_entry [wind_unit "A" 5 ""; solar_unit "B" 7]
           [Some "solar"] [Some "tidal"] (Some "")).
  - repeat constructor; by eexists.
  - reflexivity.
Defined.

Lemma X8_first_unit_key_error_witness :
  retrieve_additional_data _ client_all flat unit_key 1 "hydro" "eeg_data"
    (Some 10%Z) 1000 (one_request_store "hydro" "eeg_data" "EEG7")
  = Raised (KeyError "eeg_data")
      {| drain_store := one_request_store "hydro" "eeg_data" "EEG7";
         drain_log := [] |}.
Proof.
  apply (λ H1 H2 H3 H4 H5,
           proj1 (X8_first_unit_key_error _ client_all flat unit_key 0 "hydro"
                    "eeg_data" "_eeg_unit_data" 10 1000
                    (one_request_store "hydro" "eeg_data" "EEG7")
                    (unit_answer "EEG7") [] H1 H2 H3 H4 H5)).
  - lia.
  - lia.
  - reflexivity.
  - done.
  - reflexivity.
  - intros key Hkey.
    repeat (apply elem_of_cons in Hkey as [->|Hkey]); [by eexists..|].
    by apply elem_of_nil in Hkey.
  - reflexivity.
Defined.


End SyncMore.


(** * Further properties of the bulk loader *)

Module BulkMore.
Import Bulk BulkProofs.

(** ** The exceptions of a conversion *)



Section ConvertMore.

Variable tablename_mapping : gmap string TableInfo.

Local Abbreviation entries_loop := (convert_entries tablename_mapping).
Local Abbreviation convert := (convert_mastr_xml_to_sqlite tablename_mapping).



(** ** Entries that are not written *)

(** Whether the entry [file_name] is written: its table is listed exactly
    once in [include_tables] and has a class. *)
Definition to_be_written (include_tables : list string) (file_name : string)
  : bool :=
  match tablename_mapping !! xml_tablename_of file_name with
  | Some info =>
      bool_decide (length (filter (λ x, x = xml_tablename_of file_name)
                             include_tables) = 1)
      && bool_decide (mapped_class info ≠ None)
  | None => false
  end.

Definition mapped (entry : string * DataFrame) : Prop :=
  is_Some (tablename_mapping !! xml_tablename_of entry.1).

Lemma convert_entries_skip fuel include_tables file_name df rest index l :
  mapped (file_name, df) →
  to_be_written include_tables file_name = false →
  entries_loop fuel include_tables ((file_name, df) :: rest) index l
  = entries_loop fuel include_tables rest index l.
Proof.
  unfold mapped, to_be_written. simpl. unfold getitem.
  intros [info ->] Hskip. by rewrite Hskip.
Qed.

Lemma convert_entries_skipped fuel include_tables skipped rest index l :
  Forall mapped skipped →
  Forall (λ entry, to_be_written include_tables entry.1 = false) skipped →
  entries_loop fuel include_tables (skipped ++ rest) index l
  = entries_loop fuel include_tables rest index l.
Proof.
  induction 1 as [|[file_name df] skipped Hm _ IH]; intros Hskip; [done|].
  apply Forall_cons in Hskip as [Hs Hskip].
  rewrite <- app_comm_cons, convert_entries_skip by done. by apply IH.
Qed.

(** X11. When every entry of the archive has a table name that is a key of
    [tablename_mapping], a conversion does what it does for the archive
    without the entries that are not to be written: the entries of tables
    without a class and of tables that [include_tables] does not list
    exactly once (not at all, or more than once).  Without an entry to be
    written, nothing is done to the database. *)
Theorem X11_unselected_entries_skipped (fuel : nat)
    (entries : list (string * DataFrame)) (include_tables : list string)
    (db : gmap string Table) :
  Forall mapped entries →
  convert fuel entries include_tables db
  = convert fuel
      (filter (λ entry, to_be_written include_tables entry.1) entries)
      include_tables db
  ∧ (Forall (λ entry, to_be_written include_tables entry.1 = false) entries →
     convert fuel entries include_tables db
     = Done {| database := db; events := [] |}).
Proof.
  intros Hmapped. unfold convert_mastr_xml_to_sqlite. split.
  - generalize (@None nat). generalize {| database := db; events := [] |}.
    induction Hmapped as [|[file_name df] rest Hm _ IH]; intros l index;
      [done|].
    destruct (to_be_written include_tables file_name) eqn:Hsel.
    + rewrite filter_cons_True by (simpl; by rewrite Hsel).
      simpl. destruct (getitem _ _) as [info|e]; [|done].
      destruct (_ && _); [|apply IH].
      destruct (if is_first_file file_name then _ else _) as [i|e]; [|done].
      destruct (add_table_to_sqlite_database _ _ _ _ _ _ _); [apply IH|done..].
    + rewrite filter_cons_False by (simpl; rewrite Hsel; intros []).
      rewrite convert_entries_skip by done. apply IH.
  - intros Hskip.
    rewrite <- (app_nil_r entries), convert_entries_skipped by done. done.
Qed.

(** X12. When the first entry of the archive that is to be written is not
    the first file of its table (the part of its name between the last
    underscore and the first dot is not [1], and the name has an
    underscore before its first dot), the conversion ends with the
    UnboundLocalError of [index_for_printed_message] before anything is
    written. *)
Theorem X12_later_file_first (fuel : nat)
    (skipped rest : list (string * DataFrame)) (file_name : string)
    (df : DataFrame) (include_tables : list string) (db : gmap string Table) :
  Forall mapped skipped →
  Forall (λ entry, to_be_written include_tables entry.1 = false) skipped →
  to_be_written include_tables file_name = true →
  is_first_file file_name = false →
  convert fuel (skipped ++ (file_name, df) :: rest) include_tables db
  = Raised (UnboundLocalError "index_for_printed_message")
      {| database := db; events := [] |}.
Proof.
  intros Hmapped Hskip Hsel Hfirst. unfold convert_mastr_xml_to_sqlite.
  rewrite convert_entries_skipped by done. simpl.
  revert Hsel. unfold to_be_written, getitem.
  destruct (tablename_mapping !! xml_tablename_of file_name) as [info|];
    [|done].
  intros ->. by rewrite Hfirst.
Qed.

End ConvertMore.

(** ** A value that its column refuses *)





(** ** Databases of text columns *)







(** ** File names *)

(** Whether a character occurs in a string. *)
Fixpoint occurs (c : ascii) (s : string) : bool :=
  match s with
  | EmptyString => false
  | String a rest => bool_decide (a = c) || occurs c rest
  end.

Lemma occurs_cons c a s :
  occurs c (String a s) = false → a ≠ c ∧ occurs c s = false.
Proof.
  simpl. intros [Ha Hs]%orb_false_iff. split; [|done].
  by apply bool_decide_eq_false in Ha.
Qed.

Lemma hd_split_cons sep c s :
  c ≠ sep →
  hd "" (split sep (String c s)) = String c (hd "" (split sep s)).
Proof.
  intros Hne. simpl. rewrite bool_decide_eq_false_2 by done.
  by destruct (split sep s).
Qed.

Lemma hd_split_app sep a b :
  occurs sep a = false →
  hd "" (split sep (a +:+ b)) = a +:+ hd "" (split sep b).
Proof.
  induction a as [|c a IH]; intros Ha; [done|].
  apply occurs_cons in Ha as [Hc Ha].
  change (String c a +:+ b) with (String c (a +:+ b)).
  rewrite hd_split_cons by done. rewrite IH by done. done.
Qed.

Lemma hd_split_sep sep a b :
  occurs sep a = false → hd "" (split sep (a +:+ String sep b)) = a.
Proof.
  induction a as [|c a IH]; intros Ha.
  - simpl. by rewrite bool_decide_eq_true_2.
  - apply occurs_cons in Ha as [Hc Ha].
    change (String c a +:+ String sep b) with (String c (a +:+ String sep b)).
    rewrite hd_split_cons by done. by rewrite IH.
Qed.

Lemma split_no_sep sep s : occurs sep s = false → split sep s = [s].
Proof.
  induction s as [|c s IH]; intros Hs; [done|].
  apply occurs_cons in Hs as [Hc Hs]. simpl.
  rewrite bool_decide_eq_false_2 by done. by rewrite IH.
Qed.

Lemma split_app_sep sep a b :
  occurs sep a = false →
  split sep (a +:+ String sep b) = a :: split sep b.
Proof.
  induction a as [|c a IH]; intros Ha.
  - simpl. by rewrite bool_decide_eq_true_2.
  - apply occurs_cons in Ha as [Hc Ha].
    change (String c a +:+ String sep b) with (String c (a +:+ String sep b)).
    cbn [split]. rewrite bool_decide_eq_false_2 by done. by rewrite IH.
Qed.

(** X14. File names of the archive.  For a base name and a number part
    without underscore and dot: the entry [base_k.ext] and the entry
    [base.ext] have the table name [base] in lower case; [base_k.ext] is
    the first file of its table exactly when [k] is [1], and [base.ext]
    always is. *)
Theorem X14_file_names (base k ext : string) :
  occurs "_" base = false → occurs "." base = false →
  occurs "_" k = false → occurs "." k = false →
  xml_tablename_of (base +:+ "_" +:+ k +:+ "." +:+ ext) = lower base
  ∧ xml_tablename_of (base +:+ "." +:+ ext) = lower base
  ∧ is_first_file (base +:+ "_" +:+ k +:+ "." +:+ ext) = bool_decide (k = "1")
  ∧ is_first_file (base +:+ "." +:+ ext) = true.
Proof.
  intros Hb_ Hbd Hk_ Hkd. unfold xml_tablename_of, is_first_file.
  change ("_" +:+ k +:+ "." +:+ ext) with (String "_" (k +:+ String "." ext)).
  change ("." +:+ ext) with (String "." ext).
  split; [|split; [|split]].
  - rewrite hd_split_sep by done. by rewrite split_no_sep.
  - rewrite hd_split_app by done.
    rewrite hd_split_cons by done. by rewrite hd_split_sep.
  - rewrite hd_split_app by done. rewrite hd_split_cons by done.
    rewrite hd_split_sep by done.
    rewrite split_app_sep, split_no_sep by done. simpl.
    apply orb_false_r.
  - rewrite hd_split_sep by done. rewrite split_no_sep by done. simpl.
    apply orb_true_r.
Qed.

(** ** [handle_xml_syntax_error] *)

Lemma index_nonneg {A} (s : list A) (n : nat) :
  index s (Z.of_nat n) = s !! n.
Proof.
  unfold index. destruct (Z.leb_spec 0 (Z.of_nat n)); [|lia].
  by rewrite Nat2Z.id.
Qed.

Lemma find_start_char_back (pre junk rest : list N) :
  greater_than_sign ∉ junk →
  ∀ j fuel position shift,
    j ≤ length junk → j < fuel →
    (position + shift)%Z = Z.of_nat (length pre + j) →
    find_start_char fuel (pre ++ greater_than_sign :: junk ++ rest)
      position shift
    = Returns (Z.of_nat (length pre) + 1)%Z.
Proof.
  intros Hjunk. induction j as [|j IH]; intros fuel position shift Hj Hfuel Hpos;
    (destruct fuel as [|fuel]; [lia|]); simpl; rewrite Hpos, index_nonneg.
  - rewrite Nat.add_0_r, list_lookup_middle by done.
    by rewrite bool_decide_eq_true_2.
  - rewrite lookup_app_r by lia.
    replace (length pre + S j - length pre) with (S j) by lia. simpl.
    destruct (lookup_lt_is_Some_2 junk j) as [c Hc]; [lia|].
    rewrite lookup_app_l by lia. rewrite Hc.
    rewrite bool_decide_eq_false_2.
    2:{ intros ->. by apply list_elem_of_lookup_2 in Hc. }
    apply IH; lia.
Qed.

Lemma take_drop_middle_delete {A} (pre : list A) (c : A) (rest : list A) :
  slice_to (pre ++ c :: rest) (Z.of_nat (length pre))
  ++ slice_from (pre ++ c :: rest) (Z.of_nat (length pre) + 1)
  = pre ++ rest.
Proof.
  unfold slice_to, slice_from, slice_bound.
  destruct (Z.ltb_spec (Z.of_nat (length pre)) 0); [lia|].
  destruct (Z.ltb_spec (Z.of_nat (length pre) + 1) 0); [lia|].
  rewrite length_app. simpl.
  rewrite Nat2Z.id, Nat.min_l by lia.
  replace (Z.to_nat (Z.of_nat (length pre) + 1)) with (length pre + 1) by lia.
  rewrite Nat.min_l by lia.
  rewrite take_app_length. f_equal.
  rewrite <- drop_drop, drop_app_length. done.
Qed.

Lemma delete_to_next_tag_found (pre junk post : list N) :
  less_than_sign ∉ junk →
  ∀ fuel, length junk < fuel →
    delete_to_next_tag fuel (pre ++ junk ++ less_than_sign :: post)
      (Z.of_nat (length pre))
    = Returns (pre ++ less_than_sign :: post).
Proof.
  induction junk as [|c junk IH]; intros Hjunk fuel Hfuel;
    (destruct fuel as [|fuel]; [simpl in Hfuel; lia|]); simpl;
    rewrite index_nonneg.
  - rewrite list_lookup_middle by done. by rewrite bool_decide_eq_true_2.
  - rewrite list_lookup_middle by done.
    apply not_elem_of_cons in Hjunk as [Hc Hjunk].
    rewrite bool_decide_eq_false_2 by done.
    rewrite (take_drop_middle_delete pre c (junk ++ less_than_sign :: post)).
    apply IH; [done|]. simpl in Hfuel. lia.
Qed.

Lemma delete_to_next_tag_end (pre junk : list N) :
  less_than_sign ∉ junk →
  ∀ fuel, length junk < fuel →
    delete_to_next_tag fuel (pre ++ junk) (Z.of_nat (length pre)) = IndexError.
Proof.
  induction junk as [|c junk IH]; intros Hjunk fuel Hfuel;
    (destruct fuel as [|fuel]; [simpl in Hfuel; lia|]); simpl;
    rewrite index_nonneg.
  - rewrite app_nil_r. by rewrite lookup_ge_None_2.
  - rewrite list_lookup_middle by done.
    apply not_elem_of_cons in Hjunk as [Hc Hjunk].
    rewrite bool_decide_eq_false_2 by done.
    rewrite (take_drop_middle_delete pre c junk).
    apply IH; [done|]. simpl in Hfuel. lia.
Qed.

(** X15. The repair of a document.  When the position of the error is
    that of a [">"] or lies in the text after it, and this text up to the
    next ["<"] has neither [">"] nor ["<"], the repaired document is the
    document without this text; nothing else is changed.  Without a
    ["<"] after the [">"], the rest of the document is deleted and the
    repair ends with an IndexError.  One more iteration than the text has
    characters is enough for both. *)
Theorem X15_repair_between_tags (pre junk post : list N) (j fuel : nat) :
  greater_than_sign ∉ junk → less_than_sign ∉ junk →
  j ≤ length junk → length junk < fuel →
  handle_xml_syntax_error fuel
    (pre ++ greater_than_sign :: junk ++ less_than_sign :: post)
    (Z.of_nat (length pre + j))
  = Returns (pre ++ greater_than_sign :: less_than_sign :: post)
  ∧ handle_xml_syntax_error fuel (pre ++ greater_than_sign :: junk)
      (Z.of_nat (length pre + j))
    = IndexError.
Proof.
  intros Hgt Hlt Hj Hfuel. unfold handle_xml_syntax_error. split.
  - rewrite (find_start_char_back pre junk (less_than_sign :: post) Hgt j)
      by lia.
    replace (Z.of_nat (length pre) + 1)%Z
      with (Z.of_nat (length (pre ++ [greater_than_sign])))
      by (rewrite length_app; simpl; lia).
    rewrite (cons_middle greater_than_sign pre), app_assoc.
    rewrite delete_to_next_tag_found by done.
    by rewrite <- app_assoc.
  - pose proof (find_start_char_back pre junk [] Hgt j fuel
                  (Z.of_nat (length pre + j)) 0) as Hfind.
    rewrite app_nil_r in Hfind. rewrite Hfind by lia.
    replace (Z.of_nat (length pre) + 1)%Z
      with (Z.of_nat (length (pre ++ [greater_than_sign])))
      by (rewrite length_app; simpl; lia).
    rewrite (cons_middle greater_than_sign pre), app_assoc.
    by apply delete_to_next_tag_end.
Qed.

Lemma index_elem {A} (s : list A) (i : Z) (c : A) :
  index s i = Some c → c ∈ s ∧ (- Z.of_nat (length s) ≤ i)%Z.
Proof.
  unfold index. destruct (Z.leb_spec 0 i).
  - intros Hc%list_elem_of_lookup_2. split; [done|lia].
  - destruct (Z.leb_spec (- Z.of_nat (length s)) i); [|done].
    intros Hc%list_elem_of_lookup_2. split; [done|lia].
Qed.

Lemma find_start_char_none (s : list N) (position : Z) :
  greater_than_sign ∉ s →
  ∀ fuel shift,
    Z.to_nat (position + shift + Z.of_nat (length s) + 1) < fuel →
    find_start_char fuel s position shift = IndexError.
Proof.
  intros Hs. induction fuel as [|fuel IH]; intros shift Hfuel; [lia|]. simpl.
  destruct (index s (position + shift)) as [c|] eqn:Hc; [|done].
  apply index_elem in Hc as [Hc Hlow].
  rewrite bool_decide_eq_false_2 by (by intros ->).
  apply IH. lia.
Qed.

(** X16. The repair ends with an IndexError when the position of the error
    is not before the end of the document, and, given enough iterations,
    when the document has no [">"] at all: the search for it goes back
    from the position to the start of the document, goes on from its end
    and leaves it at its start. *)
Theorem X16_repair_index_error (decoded_data : list N)
    (wrong_char_position : Z) (fuel : nat) :
  ((Z.of_nat (length decoded_data) ≤ wrong_char_position)%Z → 0 < fuel →
   handle_xml_syntax_error fuel decoded_data wrong_char_position = IndexError)
  ∧ (greater_than_sign ∉ decoded_data →
     Z.to_nat (wrong_char_position + Z.of_nat (length decoded_data) + 1) < fuel →
     handle_xml_syntax_error fuel decoded_data wrong_char_position
     = IndexError).
Proof.
  unfold handle_xml_syntax_error. split.
  - intros Hpos Hfuel. destruct fuel as [|fuel]; [lia|]. simpl.
    unfold index. rewrite Z.add_0_r.
    destruct (Z.leb_spec 0 wrong_char_position); [|lia].
    by rewrite lookup_ge_None_2 by lia.
  - intros Hs Hfuel. rewrite find_start_char_none; [done..|].
    by rewrite Z.add_0_r.
Qed.





(** ** The theorems at example data *)

Import Examples.


Lemma X11_unselected_entries_skipped_witness :
  convert_mastr_xml_to_sqlite solar_mapping 3
    [("Solar_1.xml", solar_frame 2); ("Solar_2.xml", solar_frame 2)]
    ["solar"; "wind"; "solar"] {[ "solar" := id_table ]}
  = Done {| database := {[ "solar" := id_table ]}; events := [] |}.
Proof.
  apply (λ H1 H2, proj2 (X11_unselected_entries_skipped solar_mapping 3
           [("Solar_1.xml", solar_frame 2); ("Solar_2.xml", solar_frame 2)]
           ["solar"; "wind"; "solar"] {[ "solar" := id_table ]} H1) H2).
  - repeat constructor; by eexists.
  - repeat constructor.
Defined.

Lemma X12_later_file_first_witness :
  convert_mastr_xml_to_sqlite solar_mapping 3
    [("Solar_2.xml", solar_frame 2); ("Solar_1.xml", solar_frame 2)]
    ["solar"] {[ "solar" := id_table ]}
  = Raised (UnboundLocalError "index_for_printed_message")
      {| database := {[ "solar" := id_table ]}; events := [] |}.
Proof.
  apply (X12_later_file_first solar_mapping 3 []
           [("Solar_1.xml", solar_frame 2)] "Solar_2.xml" (solar_frame 2)
           ["solar"] {[ "solar" := id_table ]}).
  - constructor.
  - constructor.
  - reflexivity.
  - reflexivity.
Defined.


Lemma X14_file_names_witness :
  xml_tablename_of ("AnlagenEegSolar" +:+ "_" +:+ "12" +:+ "." +:+ "xml")
  = lower "AnlagenEegSolar"
  ∧ xml_tablename_of ("AnlagenEegSolar" +:+ "." +:+ "xml")
    = lower "AnlagenEegSolar"
  ∧ is_first_file ("AnlagenEegSolar" +:+ "_" +:+ "12" +:+ "." +:+ "xml")
    = bool_decide ("12" = "1")
  ∧ is_first_file ("AnlagenEegSolar" +:+ "." +:+ "xml") = true.
Proof.
  apply (X14_file_names "AnlagenEegSolar" "12" "xml"); reflexivity.
Defined.

Lemma X15_repair_between_tags_witness :
  handle_xml_syntax_error 4 (code_points "<a>1</a><b>x&y</b>") 12
  = Returns (code_points "<a>1</a><b></b>")
  ∧ handle_xml_syntax_error 4 (code_points "<a>1</a><b>x&y") 12 = IndexError.
Proof.
  apply (X15_repair_between_tags (code_points "<a>1</a><b")
           (code_points "x&y") (code_points "/b>") 2 4).
  - compute_done.
  - compute_done.
  - simpl. lia.
  - simpl. lia.
Defined.

Lemma X16_repair_index_error_witness :
  handle_xml_syntax_error 10 (code_points "a b c") 2 = IndexError.
Proof.
  apply (proj2 (X16_repair_index_error (code_points "a b c") 2 10)).
  - compute_done.
  - simpl. lia.
Defined.



End BulkMore.
